(** * Retail store inventory manager (inventory.c): model and properties

    A shallow embedding of the record store and of its CSV persistence
    codec.  The in-memory store [g_items]/[g_count] is a list holding the
    slots [g_items[0 .. g_count-1]]; slots at or beyond [g_count] are never
    read by the program before they are written again.  Everything the
    program prints is kept as a log of messages.  [int] is a 32-bit signed
    integer, [double] is the kernel's binary64. *)

From Stdlib Require Import ZArith List Ascii String Bool Lia.
From Stdlib Require Import Floats.PrimFloat Floats.FloatOps Floats.SpecFloat DecimalN.
From stdpp Require Import list.
From Equations Require Import Equations.
Import ListNotations.

Local Open Scope Z_scope.
Set Warnings "-inexact-float".

(** ** Constants *)

Definition MAX_ITEMS : Z := 500.
Definition MAX_NAME_LEN : Z := 64.
Definition LINE_BUF : Z := 256.

Definition INT_MIN : Z := - 2 ^ 31.
Definition INT_MAX : Z := 2 ^ 31 - 1.

(** Arithmetic on [int]: the result of [+=] reduced to 32 bits, two's
    complement (what the usual targets do on signed overflow). *)
Definition wrap_int (z : Z) : Z := (z + 2 ^ 31) mod 2 ^ 32 - 2 ^ 31.

(** ** Characters and C strings *)

(** A C string is the list of its characters; the end of the list stands
    for the terminating NUL, and a NUL inside a list terminates it too. *)
Definition cstring := list ascii.

Definition str (s : string) : cstring := list_ascii_of_string s.

Definition code (c : ascii) : Z := Z.of_N (N_of_ascii c).

Definition is_nul (c : ascii) : bool := code c =? 0.

(** [isspace] in the C locale: space, \t, \n, \v, \f, \r. *)
Definition isspace (c : ascii) : bool :=
  (code c =? 32) || ((9 <=? code c) && (code c <=? 13)).

Definition isdigit (c : ascii) : bool := (48 <=? code c) && (code c <=? 57).

(** [tolower] in the C locale. *)
Definition tolower (c : ascii) : ascii :=
  if (65 <=? code c) && (code c <=? 90)
  then ascii_of_N (Z.to_N (code c + 32)) else c.

(** The characters before the first NUL. *)
Fixpoint c_str (s : list ascii) : cstring :=
  match s with
  | [] => []
  | c :: s' => if is_nul c then [] else c :: c_str s'
  end.

Definition strlen (s : cstring) : Z := Z.of_nat (length (c_str s)).

(** [strncpy(dst, src, n); dst[n] = '\0'] *)
Definition strncpy (n : Z) (src : cstring) : cstring :=
  take (Z.to_nat n) (c_str src).

(** [strcasecmp]: the difference of the first two characters that differ
    after [tolower], 0 when both strings end together. *)
Fixpoint strcasecmp (a b : cstring) : Z :=
  match a, b with
  | [], [] => 0
  | [], d :: _ => 0 - code (tolower d)
  | c :: _, [] => code (tolower c) - 0
  | c :: a', d :: b' =>
      let r := code (tolower c) - code (tolower d) in
      if r =? 0 then (if is_nul c then 0 else strcasecmp a' b') else r
  end.

(** [trim]: drop leading, then trailing, white space. *)
Fixpoint skip_space (s : cstring) : cstring :=
  match s with
  | c :: s' => if isspace c then skip_space s' else s
  | [] => []
  end.

Fixpoint drop_trailing_space (s : cstring) : cstring :=
  match s with
  | [] => []
  | c :: s' =>
      match drop_trailing_space s' with
      | [] => if isspace c then [] else [c]
      | t => c :: t
      end
  end.

Definition trim (s : cstring) : cstring := drop_trailing_space (skip_space s).

(** ** Data model *)

Record Item : Type := mkItem {
  name : cstring;      (* char name[MAX_NAME_LEN] *)
  quantity : Z;        (* int *)
  price : float        (* double *)
}.

Abbreviation store := (list Item).

Definition no_item : Item := mkItem [] 0 0%float.

(** ** Messages printed by the program *)

Inductive msg : Type :=
| INFO_not_found                               (* '%s' not found - starting with empty inventory *)
| ERROR_cannot_open                            (* Cannot open '%s': %s *)
| WARN_capacity                                (* Max capacity (%d) reached; remaining lines ignored *)
| WARN_malformed (lineno : Z) (line : cstring) (* Line %d: malformed record (skipped): %s *)
| WARN_name_length (lineno : Z)                (* Line %d: invalid name length (skipped) *)
| WARN_quantity (lineno : Z) (tok : cstring)   (* Line %d: invalid quantity '%s' (skipped) *)
| WARN_price (lineno : Z) (tok : cstring)      (* Line %d: invalid price '%s' (skipped) *)
| WARN_duplicate (lineno : Z) (tok : cstring)  (* Line %d: duplicate name '%s' (skipped) *)
| INFO_loaded (n : Z)                          (* Loaded %d item(s) from '%s' *)
| ERROR_cannot_write                           (* Cannot write '%s': %s *)
| INFO_saved (n : Z)                           (* %d item(s) saved to '%s' *)
| ERROR_invalid_name                           (* Invalid item name *)
| ERROR_quantity_not_positive                  (* Quantity must be > 0 *)
| ERROR_price_negative                         (* Price cannot be negative *)
| OK_restocked (n : cstring) (q : Z) (p : float) (* Restocked '%s' -> qty=%d, price=%.2f *)
| ERROR_full                                   (* Inventory full (max %d items) *)
| OK_added (n : cstring) (q : Z) (p : float)   (* Added '%s': qty=%d, price=%.2f *)
| ERROR_item_not_found (n : cstring)           (* '%s' not found in inventory *)
| OK_removed (n : cstring)                     (* Removed '%s' *)
| ERROR_quantity_negative                      (* Quantity cannot be negative *)
| OK_quantity (n : cstring) (q : Z).           (* '%s' quantity -> %d *)

(** The error kinds of the specification, read off the message. *)
Inductive error_kind : Type :=
| InvalidName | InvalidQuantity | InvalidPrice | NotFound | CapacityExceeded
| MalformedRecord | DuplicateRecord | WriteError | ReadError.

Definition kind_of (m : msg) : option error_kind :=
  match m with
  | ERROR_invalid_name => Some InvalidName
  | ERROR_quantity_not_positive | ERROR_quantity_negative => Some InvalidQuantity
  | ERROR_price_negative => Some InvalidPrice
  | ERROR_item_not_found _ => Some NotFound
  | ERROR_full | WARN_capacity => Some CapacityExceeded
  | WARN_malformed _ _ | WARN_name_length _ | WARN_quantity _ _ | WARN_price _ _ =>
      Some MalformedRecord
  | WARN_duplicate _ _ => Some DuplicateRecord
  | ERROR_cannot_write => Some WriteError
  | ERROR_cannot_open => Some ReadError
  | _ => None
  end.

(** ** The program's effects: the global store and the output *)

Definition M (A : Type) : Type := store -> A * store * list msg.

Definition ret {A} (a : A) : M A := fun g => (a, g, []).

Definition bind {A B} (m : M A) (k : A -> M B) : M B :=
  fun g =>
    let '(a, g1, o1) := m g in
    let '(b, g2, o2) := k a g1 in
    (b, g2, o1 ++ o2).

Notation "x <- m ;; k" := (bind m (fun x => k))
  (at level 100, m at next level, k at level 200, right associativity).
Notation "m ;; k" := (bind m (fun _ => k))
  (at level 100, k at level 200, right associativity).

Definition print (m : msg) : M unit := fun g => (tt, g, [m]).

(** [g_count] *)
Definition g_count : M Z := fun g => (Z.of_nat (length g), g, []).

(** [g_items[i]] for [0 <= i < g_count] *)
Definition read (i : Z) : M Item := fun g => (nth (Z.to_nat i) g no_item, g, []).

(** [g_items[i] = it] for [0 <= i < g_count] *)
Definition write (i : Z) (it : Item) : M unit :=
  fun g => (tt, <[Z.to_nat i := it]> g, []).

(** [g_items[g_count] = it; g_count++] *)
Definition push (it : Item) : M unit := fun g => (tt, g ++ [it], []).

(** [g_count--] *)
Definition pop : M unit := fun g => (tt, take (length g - 1)%nat g, []).

(** [g_count = 0] *)
Definition clear : M unit := fun _ => (tt, [], []).

Definition result {A} (r : A * store * list msg) : A := fst (fst r).
Definition store_of {A} (r : A * store * list msg) : store := snd (fst r).
Definition output {A} (r : A * store * list msg) : list msg := snd r.

(** ** Record store *)

(** [find_item]: the first index whose name equals [n] ignoring case, or -1. *)
Fixpoint find_from (i : Z) (g : store) (n : cstring) : Z :=
  match g with
  | [] => -1
  | it :: g' => if strcasecmp (name it) n =? 0 then i else find_from (i + 1) g' n
  end.

Definition find_item (n : cstring) : M Z := fun g => (find_from 0 g n, g, []).

Definition add_item (n : cstring) (qty : Z) (p : float) : M bool :=
  if (strlen n =? 0) || (MAX_NAME_LEN <=? strlen n) then
    print ERROR_invalid_name ;; ret false
  else if qty <=? 0 then
    print ERROR_quantity_not_positive ;; ret false
  else if PrimFloat.ltb p 0%float then
    print ERROR_price_negative ;; ret false
  else
    idx <- find_item n ;;
    if 0 <=? idx then
      old <- read idx ;;
      write idx (mkItem (name old) (wrap_int (quantity old + qty)) p) ;;
      it <- read idx ;;
      print (OK_restocked (name it) (quantity it) (price it)) ;;
      ret true
    else
      cnt <- g_count ;;
      if MAX_ITEMS <=? cnt then
        print ERROR_full ;; ret false
      else
        push (mkItem (strncpy (MAX_NAME_LEN - 1) n) qty p) ;;
        print (OK_added n qty p) ;;
        ret true.

(** [for (i = idx; i < g_count - 1; i++) g_items[i] = g_items[i + 1];]
    with [k] iterations left. *)
Fixpoint shift_left (k : nat) (i : Z) : M unit :=
  match k with
  | O => ret tt
  | S k' => next <- read (i + 1) ;; write i next ;; shift_left k' (i + 1)
  end.

Definition remove_item (n : cstring) : M bool :=
  idx <- find_item n ;;
  if idx <? 0 then
    print (ERROR_item_not_found n) ;; ret false
  else
    cnt <- g_count ;;
    shift_left (Z.to_nat (cnt - 1 - idx)) idx ;;
    pop ;;
    print (OK_removed n) ;;
    ret true.

Definition update_quantity (n : cstring) (new_qty : Z) : M bool :=
  if new_qty <? 0 then
    print ERROR_quantity_negative ;; ret false
  else
    idx <- find_item n ;;
    if idx <? 0 then
      print (ERROR_item_not_found n) ;; ret false
    else
      old <- read idx ;;
      write idx (mkItem (name old) new_qty (price old)) ;;
      print (OK_quantity n new_qty) ;;
      ret true.

(** The conversion [(double)z] of an integer: the nearest binary64. *)
Definition double_of_Z (z : Z) : float :=
  SF2Prim (binary_normalize prec emax z 0 false).

(** [calculate_total]: the sum of quantity * price, in floating point. *)
Definition calculate_total : M float :=
  fun g =>
    (fold_left (fun total it =>
                  PrimFloat.add total (PrimFloat.mul (double_of_Z (quantity it)) (price it)))
               g 0%float,
     g, []).


(** ** Numbers in text: [strtol], [strtod], [%d], [%.2f] *)

Definition LONG_MIN : Z := - 2 ^ 31.
Definition LONG_MAX : Z := 2 ^ 31 - 1.

Definition digit_val (c : ascii) : Z := code c - 48.

(** The value of a run of decimal digits read after the value [acc]. *)
Fixpoint dec_value (acc : Z) (ds : list ascii) : Z :=
  match ds with
  | [] => acc
  | c :: ds' => dec_value (10 * acc + digit_val c) ds'
  end.

(** The longest prefix of characters satisfying [f], and what follows. *)
Fixpoint span (f : ascii -> bool) (s : cstring) : cstring * cstring :=
  match s with
  | c :: s' => if f c then let '(a, b) := span f s' in (c :: a, b) else ([], s)
  | [] => ([], [])
  end.

Definition is_char (x : Z) (c : ascii) : bool := code c =? x.

(** An optional sign: whether it is a minus, and what follows. *)
Definition read_sign (s : cstring) : bool * cstring :=
  match s with
  | c :: s' => if is_char 45 c then (true, s') else if is_char 43 c then (false, s') else (false, s)
  | [] => (false, [])
  end.

(** [strtol(s, &ep, 10)]: the value and the text [ep] points to.  Without
    a digit nothing is converted and [ep] is [s]. *)
Definition strtol (s : cstring) : Z * cstring :=
  let '(neg, s1) := read_sign (skip_space s) in
  let '(ds, rest) := span isdigit s1 in
  match ds with
  | [] => (0, s)
  | _ =>
      let v := dec_value 0 ds in
      (Z.max LONG_MIN (Z.min LONG_MAX (if neg then - v else v)), rest)
  end.

(** The binary64 nearest to [n / d] (ties to even), for [0 <= n], [0 < d]:
    the quotient is taken with 64 or more bits and a sticky bit, then
    rounded once. *)
Definition round_ratio (neg : bool) (n d : Z) : float :=
  if n =? 0 then (if neg then (-0)%float else 0%float)
  else
    let k := Z.max 0 (64 + Z.log2 d - Z.log2 n) in
    let q := (n * 2 ^ k) / d in
    let sticky := if (n * 2 ^ k) mod d =? 0 then 0 else 1 in
    let m := 2 * q + sticky in
    SF2Prim (binary_normalize prec emax (if neg then - m else m) (- k - 1) neg).

(** [m * b ^ e] as a binary64. *)
Definition round_scaled (neg : bool) (m b e : Z) : float :=
  if 0 <=? e then round_ratio neg (m * b ^ e) 1 else round_ratio neg m (b ^ (- e)).

Definition isxdigit (c : ascii) : bool :=
  isdigit c || ((97 <=? code (tolower c)) && (code (tolower c) <=? 102)).

Definition xdigit_val (c : ascii) : Z :=
  if isdigit c then code c - 48 else code (tolower c) - 87.

Fixpoint hex_value (acc : Z) (ds : list ascii) : Z :=
  match ds with
  | [] => acc
  | c :: ds' => hex_value (16 * acc + xdigit_val c) ds'
  end.

(** An optional exponent part: [mark], an optional sign and at least one
    digit.  Returns the exponent (0 when there is none) and what follows. *)
Definition read_exponent (mark : Z) (s : cstring) : Z * cstring :=
  match s with
  | c :: s' =>
      if is_char mark (tolower c) then
        let '(neg, s1) := read_sign s' in
        let '(ds, rest) := span isdigit s1 in
        match ds with
        | [] => (0, s)
        | _ => ((if neg then - dec_value 0 ds else dec_value 0 ds), rest)
        end
      else (0, s)
  | [] => (0, [])
  end.

(** Digits, an optional point and more digits: the digits before and
    after the point and what follows; [None] when there is no digit. *)
Definition read_mantissa (f : ascii -> bool) (s : cstring)
  : option (cstring * cstring * cstring) :=
  let '(ip, s1) := span f s in
  let '(fp, s2) :=
    match s1 with
    | c :: s1' => if is_char 46 c then span f s1' else ([], s1)
    | [] => ([], [])
    end in
  match ip, fp with
  | [], [] => None
  | _, _ => Some (ip, fp, s2)
  end.

(** Whether [s] starts with the lower-case word [w], ignoring case. *)
Fixpoint starts_with (w : list ascii) (s : cstring) : option cstring :=
  match w, s with
  | [], _ => Some s
  | x :: w', c :: s' => if Ascii.eqb (tolower c) x then starts_with w' s' else None
  | _ :: _, [] => None
  end.

Definition isalnum_ (c : ascii) : bool :=
  isdigit c || ((97 <=? code (tolower c)) && (code (tolower c) <=? 122)) || is_char 95 c.

(** [strtod(s, &ep)]: decimal and hexadecimal floating constants,
    [inf], [infinity], [nan], [nan(...)]; the value and the text [ep]
    points to.  Without a conversion the value is 0 and [ep] is [s]. *)
Definition strtod (s : cstring) : float * cstring :=
  let '(neg, s1) := read_sign (skip_space s) in
  let signed (v : float) := if neg then PrimFloat.opp v else v in
  match starts_with (str "infinity") s1 with
  | Some rest => (signed infinity, rest)
  | None =>
  match starts_with (str "inf") s1 with
  | Some rest => (signed infinity, rest)
  | None =>
  match starts_with (str "nan") s1 with
  | Some rest =>
      (nan,
       match rest with
       | c :: r =>
           if is_char 40 c then
             match snd (span isalnum_ r) with
             | c' :: r' => if is_char 41 c' then r' else rest
             | [] => rest
             end
           else rest
       | [] => rest
       end)
  | None =>
  match
    match starts_with (str "0x") s1 with
    | Some s2 => read_mantissa isxdigit s2
    | None => None
    end
  with
  | Some (ip, fp, s3) =>
      let '(e, rest) := read_exponent 112 s3 in
      (round_scaled neg (hex_value 0 (ip ++ fp)) 2 (e - 4 * Z.of_nat (length fp)), rest)
  | None =>
  match read_mantissa isdigit s1 with
  | Some (ip, fp, s3) =>
      let '(e, rest) := read_exponent 101 s3 in
      (round_scaled neg (dec_value 0 (ip ++ fp)) 10 (e - Z.of_nat (length fp)), rest)
  | None => (0%float, s)
  end end end end end.


(** The decimal digits of a natural number, most significant first. *)
Fixpoint uint_chars (u : Decimal.uint) : list ascii :=
  match u with
  | Decimal.Nil => []
  | Decimal.D0 u' => "0"%char :: uint_chars u'
  | Decimal.D1 u' => "1"%char :: uint_chars u'
  | Decimal.D2 u' => "2"%char :: uint_chars u'
  | Decimal.D3 u' => "3"%char :: uint_chars u'
  | Decimal.D4 u' => "4"%char :: uint_chars u'
  | Decimal.D5 u' => "5"%char :: uint_chars u'
  | Decimal.D6 u' => "6"%char :: uint_chars u'
  | Decimal.D7 u' => "7"%char :: uint_chars u'
  | Decimal.D8 u' => "8"%char :: uint_chars u'
  | Decimal.D9 u' => "9"%char :: uint_chars u'
  end.

Definition dec_chars (z : Z) : list ascii := uint_chars (N.to_uint (Z.to_N z)).

(** [printf("%d", z)] *)
Definition fmt_d (z : Z) : list ascii :=
  if z <? 0 then "-"%char :: dec_chars (- z) else dec_chars z.

(** [m * 2 ^ e * 100] rounded to an integer, ties to even. *)
Definition cents (m e : Z) : Z :=
  if 0 <=? e then m * 2 ^ e * 100
  else
    let den := 2 ^ (- e) in
    let q := (m * 100) / den in
    let r := (m * 100) mod den in
    if 2 * r <? den then q
    else if den <? 2 * r then q + 1
    else if Z.even q then q else q + 1.

(** [printf("%.2f", p)]: the exact value rounded to two decimals.  A
    binary64 NaN has a sign that [printf] shows ([-nan]); the floats here
    have one NaN, printed [nan]. *)
Definition fmt_2f (p : float) : list ascii :=
  match Prim2SF p with
  | S754_nan => str "nan"
  | S754_infinity s => (if s then str "-inf" else str "inf")
  | S754_zero s => (if s then str "-0.00" else str "0.00")
  | S754_finite s m e =>
      let n := cents (Z.pos m) e in
      (if s then ["-"%char] else []) ++ dec_chars (n / 100) ++ ["."%char]
        ++ dec_chars (n mod 100 / 10) ++ dec_chars (n mod 10)
  end.

(** ** The inventory file *)

(** What the program finds at INVENTORY_FILE: no file, a file with its
    bytes, or something [fopen] fails on for another reason. *)
Inductive file_state : Type :=
| NoFile
| File (content : list ascii)
| NoAccess.

Definition newline : ascii := ascii_of_nat 10.
Definition is_newline (c : ascii) : bool := code c =? 10.

(** One [fgets]: at most [room] characters, ending after a newline. *)
Fixpoint fgets_chars (room : nat) (fp : list ascii) : list ascii * list ascii :=
  match room, fp with
  | S room', c :: fp' =>
      if is_newline c then ([c], fp')
      else let '(l, r) := fgets_chars room' fp' in (c :: l, r)
  | _, _ => ([], fp)
  end.

(** [fgets(buf, n, fp)]: [None] at the end of the file, else the buffer
    and the rest of the stream. *)
Definition fgets (n : Z) (fp : list ascii) : option (list ascii * list ascii) :=
  match fp with
  | [] => None
  | _ :: _ => Some (fgets_chars (Z.to_nat (n - 1)) fp)
  end.

(** [strtok(s, ",")] on the saved position [s]: the next token, if any,
    and the new saved position. *)
Definition is_comma (c : ascii) : bool := code c =? 44.

Definition strtok (s : cstring) : option cstring * cstring :=
  match snd (span is_comma s) with
  | [] => (None, [])
  | s1 =>
      let '(tok, rest) := span (fun c => negb (is_comma c)) s1 in
      (Some tok, match rest with [] => [] | _ :: r => r end)
  end.

Inductive flow : Type := Continue | Break.

(** The body of the reading loop for the buffer [buf] read as line
    [lineno].  [cap] stands for MAX_ITEMS, the only value the program
    passes ([load_inventory] below); it is a parameter so that the records
    a file holds can be told apart from the records a full store accepts. *)
Definition load_line (cap : Z) (lineno : Z) (buf : list ascii) : M flow :=
  let line := trim (c_str buf) in
  match line with
  | [] => ret Continue
  | c :: _ =>
      if is_char 35 c then ret Continue
      else
        cnt <- g_count ;;
        if cap <=? cnt then
          print WARN_capacity ;; ret Break
        else
          let tmp := strncpy (LINE_BUF - 1) line in
          let '(tok_name, save1) := strtok tmp in
          let '(tok_qty, save2) := strtok save1 in
          let '(tok_price, _) := strtok save2 in
          match tok_name, tok_qty, tok_price with
          | Some tok_name, Some tok_qty, Some tok_price =>
              let tok_name := trim tok_name in
              let tok_qty := trim tok_qty in
              let tok_price := trim tok_price in
              if (strlen tok_name =? 0) || (MAX_NAME_LEN <=? strlen tok_name) then
                print (WARN_name_length lineno) ;; ret Continue
              else
                let '(lqty, ep) := strtol tok_qty in
                if negb (strlen ep =? 0) || (lqty <? 0) || (1000000 <? lqty) then
                  print (WARN_quantity lineno tok_qty) ;; ret Continue
                else
                  let '(p, ep) := strtod tok_price in
                  if negb (strlen ep =? 0) || PrimFloat.ltb p 0%float
                     || PrimFloat.ltb 1e9%float p then
                    print (WARN_price lineno tok_price) ;; ret Continue
                  else
                    idx <- find_item tok_name ;;
                    if 0 <=? idx then
                      print (WARN_duplicate lineno tok_name) ;; ret Continue
                    else
                      push (mkItem (strncpy (MAX_NAME_LEN - 1) tok_name) lqty p) ;;
                      ret Continue
          | _, _, _ =>
              print (WARN_malformed lineno line) ;; ret Continue
          end
  end.

Lemma fgets_chars_shorter room c fp :
  (length (snd (fgets_chars (S room) (c :: fp))) < length (c :: fp))%nat.
Proof.
  revert c fp. induction room as [|room IH]; intros c fp; simpl.
  - destruct (is_newline c); simpl; lia.
  - destruct (is_newline c); simpl; [lia|].
    destruct fp as [|d fp]; simpl; [lia|].
    specialize (IH d fp). simpl in IH.
    destruct (is_newline d); simpl in *; [lia|].
    destruct (fgets_chars room fp); simpl in *. lia.
Qed.

(** The buffer one [fgets(line, sizeof line, fp)] fills from a stream that
    is not at its end, and the stream it leaves. *)
Definition fgets_buf (fp : list ascii) : list ascii :=
  fst (fgets_chars (Z.to_nat (LINE_BUF - 1)) fp).
Definition fgets_rest (fp : list ascii) : list ascii :=
  snd (fgets_chars (Z.to_nat (LINE_BUF - 1)) fp).

(** [while (fgets(line, sizeof line, fp)) { lineno++; ... }] from the
    stream [fp] after [lineno] lines; returns the part of the stream that
    was not read. *)
Equations? load_loop (cap : Z) (fp : list ascii) (lineno : Z) : M (list ascii)
  by wf (length fp) lt :=
  load_loop cap [] lineno := ret [];
  load_loop cap (c :: fp') lineno :=
    f <- load_line cap (lineno + 1) (fgets_buf (c :: fp')) ;;
    match f with
    | Break => ret (fgets_rest (c :: fp'))
    | Continue => load_loop cap (fgets_rest (c :: fp')) (lineno + 1)
    end.
Proof.
  apply (fgets_chars_shorter 254 c fp').
Qed.

Definition load_inventory (f : file_state) : M bool :=
  match f with
  | NoFile => print INFO_not_found ;; ret true
  | NoAccess => print ERROR_cannot_open ;; ret false
  | File content =>
      clear ;;
      load_loop MAX_ITEMS content 0 ;;
      cnt <- g_count ;;
      print (INFO_loaded cnt) ;;
      ret true
  end.

Definition header : list ascii :=
  str "# Retail Inventory " ++ [ascii_of_nat 226; ascii_of_nat 128; ascii_of_nat 147]
    ++ str " format: name,quantity,price" ++ [newline].

(** [fprintf(fp, "%s,%d,%.2f\n", ...)] *)
Definition fmt_item (it : Item) : list ascii :=
  c_str (name it) ++ [","%char] ++ fmt_d (quantity it) ++ [","%char]
    ++ fmt_2f (price it) ++ [newline].

(** [for (i = ...; i < g_count; i++) fprintf(fp, ...)] with [k]
    iterations left, appending to the file written so far. *)
Fixpoint save_loop (k : nat) (i : Z) (written : list ascii) : M (list ascii) :=
  match k with
  | O => ret written
  | S k' => it <- read i ;; save_loop k' (i + 1) (written ++ fmt_item it)
  end.

(** [save_inventory]: the result and what is at INVENTORY_FILE afterwards.
    The program ignores the results of [fprintf] and [fclose]; the runs
    covered are those where, once [fopen] has succeeded, every write
    reaches the file. *)
Definition save_inventory (f : file_state) : M (bool * file_state) :=
  match f with
  | NoAccess => print ERROR_cannot_write ;; ret (false, f)
  | _ =>
      cnt <- g_count ;;
      written <- save_loop (Z.to_nat cnt) 0 header ;;
      print (INFO_saved cnt) ;;
      ret (true, File written)
  end.

(** ** Input helpers *)

(** [parse_int]: a whole string that is a decimal integer in
    [0, 1000000]; [None] stands for [false]. *)
Definition parse_int (s : cstring) : option Z :=
  let '(v, ep) := strtol s in
  if negb (strlen ep =? 0) || (v <? 0) || (1000000 <? v) then None else Some v.

(** [parse_double]: a whole string that is a number neither below 0 nor
    above 1e9. *)
Definition parse_double (s : cstring) : option float :=
  let '(v, ep) := strtod s in
  if negb (strlen ep =? 0) || PrimFloat.ltb v 0%float || PrimFloat.ltb 1e9%float v
  then None else Some v.


(** ** Sequences of operations *)

Inductive op : Type :=
| Add (n : cstring) (qty : Z) (p : float)
| Remove (n : cstring)
| SetQuantity (n : cstring) (new_qty : Z)
| Load (f : file_state).

Definition exec (o : op) : M bool :=
  match o with
  | Add n qty p => add_item n qty p
  | Remove n => remove_item n
  | SetQuantity n new_qty => update_quantity n new_qty
  | Load f => load_inventory f
  end.

(** The store after the operations [ops], run in order from [g]. *)
Fixpoint run (ops : list op) (g : store) : store :=
  match ops with
  | [] => g
  | o :: ops' => run ops' (store_of (exec o g))
  end.

(** The store states of the program: the empty store, and what an
    operation makes of a store state. *)
Inductive reachable : store -> Prop :=
| reach_empty : reachable []
| reach_exec o g : reachable g -> reachable (store_of (exec o g)).

(** ** Predicates on stores *)

(** Two names are the same name when [strcasecmp] finds no difference. *)
Definition same_name (a b : cstring) : bool := strcasecmp a b =? 0.

Definition unique_names (g : store) : Prop :=
  forall i j a b,
    g !! i = Some a -> g !! j = Some b -> same_name (name a) (name b) = true -> i = j.

Definition valid_name (n : cstring) : bool :=
  (0 <? strlen n) && (strlen n <? MAX_NAME_LEN).

(** What every store state satisfies. *)
Definition store_ok (g : store) : Prop :=
  unique_names g
  /\ Forall (fun it => valid_name (name it) = true /\ c_str (name it) = name it) g
  /\ Z.of_nat (length g) <= MAX_ITEMS.

(** The key a name is compared by: its characters, in lower case. *)
Definition fold_key (n : cstring) : list ascii := map tolower (c_str n).

(** ** Definitions used to state the properties *)

Definition item_name (k : nat) : cstring := str "item" ++ dec_chars (Z.of_nat k).
Definition fill_ops (n : nat) : list op :=
  map (fun k => Add (item_name k) 1 1%float) (seq 0 n).
Definition full_store : store := Eval vm_compute in run (fill_ops 500) [].

Definition abcd : store :=
  [mkItem (str "A") 1 1%float; mkItem (str "B") 2 1%float;
   mkItem (str "C") 3 1%float; mkItem (str "D") 4 1%float].

(** The comma-separated fields of a line, empty ones included. *)
Fixpoint fields (s : cstring) : list cstring :=
  match s with
  | [] => [[]]
  | c :: s' =>
      if is_comma c then [] :: fields s'
      else match fields s' with
           | f :: fs => (c :: f) :: fs
           | [] => [[c]]
           end
  end.

Definition nonempty (f : cstring) : bool :=
  match f with [] => false | _ :: _ => true end.

(** The fields [strtok] can return: the non-empty ones. *)
Definition nonempty_fields (s : cstring) : list cstring :=
  List.filter nonempty (fields s).

(** A line the loader treats as a record: not blank, not a comment. *)
Definition is_record_line (line : cstring) : bool :=
  match line with
  | [] => false
  | c :: _ => negb (is_char 35 c)
  end.

Definition nul_free (s : list ascii) : Prop := Forall (fun c => is_nul c = false) s.

Definition quiet (out : list msg) : Prop := Forall (fun m => m <> WARN_capacity) out.

(** The records of a file: what the reading loop stores when its
    capacity, the length of the file plus one, cannot be reached. *)
Definition valid_records (content : list ascii) : store :=
  store_of (load_loop (Z.of_nat (length content) + 1) content 0 []).

Definition item_line (k : nat) : list ascii := item_name k ++ str ",1,1" ++ [newline].
Definition big_file : list ascii := Eval vm_compute in concat (map item_line (seq 0 502)).
Opaque big_file.

(** A number of hundredths written with two decimals. *)
Definition two_dp (neg : bool) (n : Z) : list ascii :=
  (if neg then ["-"%char] else []) ++ dec_chars (n / 100) ++ ["."%char]
    ++ dec_chars (n mod 100 / 10) ++ dec_chars (n mod 10).

(** The binary64 nearest to the price rounded to two decimals. *)
Definition round_2dp (p : float) : float :=
  match Prim2SF p with
  | S754_nan => nan
  | S754_infinity s => if s then neg_infinity else infinity
  | S754_zero s => round_scaled s 0 10 (-2)
  | S754_finite s m e => round_scaled s (cents (Z.pos m) e) 10 (-2)
  end.

(** Characters that end neither a field nor a line. *)
Definition plain (c : ascii) : bool :=
  negb (isspace c || is_comma c || is_nul c || is_newline c).

(** Characters that end no line: no white space, no NUL. *)
Definition inner (c : ascii) : bool := negb (isspace c || is_nul c).

(** The item Load stores for the line Save wrote for [it]. *)
Definition reread (it : Item) : Item :=
  mkItem (name it) (quantity it) (round_2dp (price it)).

(** The items whose line Load reads back: a name without comma or line
    break, without white space at its ends and not starting a comment; a
    quantity and a two-decimal price the loader accepts; a line that fits
    the line buffer. *)
Definition saves (it : Item) : Prop :=
  forallb (fun c => negb (is_comma c || is_newline c)) (name it) = true
  /\ trim (name it) = name it
  /\ is_record_line (name it) = true
  /\ 0 <= quantity it <= 1000000
  /\ PrimFloat.ltb (round_2dp (price it)) 0%float = false
  /\ PrimFloat.ltb 1e9%float (round_2dp (price it)) = false
  /\ Z.of_nat (length (fmt_item it)) < LINE_BUF.

(** The line of an item, without its newline, after the name. *)
Definition line_tail (it : Item) : list ascii :=
  ","%char :: dec_chars (quantity it) ++ ","%char :: fmt_2f (price it).

Definition header_text : list ascii :=
  str "# Retail Inventory " ++ [ascii_of_nat 226; ascii_of_nat 128; ascii_of_nat 147]
    ++ str " format: name,quantity,price".

Definition sample_store : store :=
  [mkItem (str "Green Apple") 100 0.99%float; mkItem (str "pear") 0 2.555%float].

(** The stream [fp] starts with the line [line] (its characters, without
    the line break) and goes on with [rest]; the line fits the buffer that
    [fgets] fills, so it is read in one piece.  The last line of a file
    may lack its line break. *)
Definition first_line (fp line rest : list ascii) : Prop :=
  forallb (fun c => negb (is_newline c)) line = true
  /\ Z.of_nat (length line) < LINE_BUF - 1
  /\ (fp = line ++ newline :: rest \/ line <> [] /\ fp = line /\ rest = []).

(** What the loader checks of a record before storing it. *)
Definition loaded_ok (it : Item) : Prop :=
  valid_name (name it) = true
  /\ 0 <= quantity it <= 1000000
  /\ PrimFloat.ltb (price it) 0%float = false
  /\ PrimFloat.ltb 1e9%float (price it) = false.

(** A price that passes the check [price < 0.0] of the program. *)
Definition price_ok (it : Item) : Prop := PrimFloat.ltb (price it) 0%float = false.

(** * Properties *)

(** ** Characters and names *)

Lemma code_inj c d : code c = code d -> c = d.
Proof.
  unfold code. intros H. apply N2Z.inj in H.
  rewrite <- (ascii_N_embedding c), <- (ascii_N_embedding d). now rewrite H.
Qed.

Lemma tolower_nul c : is_nul (tolower c) = is_nul c.
Proof. destruct c as [[] [] [] [] [] [] [] []]; reflexivity. Qed.

Lemma is_nul_code c : is_nul c = true <-> code c = 0.
Proof. unfold is_nul. apply Z.eqb_eq. Qed.

Lemma strcasecmp_key a b : strcasecmp a b = 0 <-> fold_key a = fold_key b.
Proof.
  unfold fold_key. revert b. induction a as [|c a IH]; intros [|d b]; simpl.
  - tauto.
  - pose proof (tolower_nul d) as Hd. unfold is_nul in Hd.
    destruct (is_nul d) eqn:E; unfold is_nul in E; rewrite E in Hd.
    + apply Z.eqb_eq in Hd. split; [reflexivity | lia].
    + apply Z.eqb_neq in Hd. split; [lia | discriminate].
  - pose proof (tolower_nul c) as Hc. unfold is_nul in Hc.
    destruct (is_nul c) eqn:E; unfold is_nul in E; rewrite E in Hc.
    + apply Z.eqb_eq in Hc. split; [reflexivity | lia].
    + apply Z.eqb_neq in Hc. split; [lia | discriminate].
  - pose proof (tolower_nul c) as Hc. pose proof (tolower_nul d) as Hd.
    destruct (code (tolower c) - code (tolower d) =? 0) eqn:R.
    + apply Z.eqb_eq in R. assert (tolower c = tolower d) as T by (apply code_inj; lia).
      rewrite T in Hc. rewrite Hc in Hd. rewrite <- Hd.
      destruct (is_nul c); [tauto|]. simpl. rewrite T. rewrite IH.
      split; [intros ->; reflexivity | intros H; now inversion H].
    + apply Z.eqb_neq in R. split; [lia|].
      destruct (is_nul c), (is_nul d); simpl; try discriminate.
      * intros _. unfold is_nul in Hc, Hd. apply Z.eqb_eq in Hc, Hd. lia.
      * intros H. inversion H as [[T U]]. rewrite T in R. lia.
Qed.

Lemma same_name_key a b : same_name a b = true <-> fold_key a = fold_key b.
Proof. unfold same_name. rewrite Z.eqb_eq. apply strcasecmp_key. Qed.

Lemma same_name_refl a : same_name a a = true.
Proof. now apply same_name_key. Qed.

Lemma same_name_sym a b : same_name a b = same_name b a.
Proof.
  apply eq_true_iff_eq. rewrite !same_name_key. split; congruence.
Qed.

Lemma same_name_trans a b c :
  same_name a b = true -> same_name b c = true -> same_name a c = true.
Proof. rewrite !same_name_key. congruence. Qed.

Lemma same_name_strlen a b : same_name a b = true -> strlen a = strlen b.
Proof.
  rewrite same_name_key. unfold fold_key, strlen. intros H.
  apply (f_equal (@length ascii)) in H. rewrite !length_map in H. lia.
Qed.

Lemma same_name_valid a b : same_name a b = true -> valid_name a = valid_name b.
Proof. intros H. unfold valid_name. now rewrite (same_name_strlen _ _ H). Qed.

(** ** Looking a name up *)

Lemma find_from_range i g n :
  find_from i g n = -1 \/ i <= find_from i g n < i + Z.of_nat (length g).
Proof.
  revert i. induction g as [|it g IH]; intros i; simpl; [now left|].
  destruct (strcasecmp (name it) n =? 0); [right; lia|].
  destruct (IH (i + 1)) as [H|H]; [now left | right; lia].
Qed.

Lemma find_from_absent i g n :
  Forall (fun it => same_name (name it) n = false) g -> find_from i g n = -1.
Proof.
  intros H. revert i. induction H as [|it g Hit _ IH]; intros i; simpl; [reflexivity|].
  unfold same_name in Hit. rewrite Hit. apply IH.
Qed.

Lemma find_from_first i g n k it :
  g !! k = Some it -> same_name (name it) n = true ->
  (forall j it', (j < k)%nat -> g !! j = Some it' -> same_name (name it') n = false) ->
  find_from i g n = i + Z.of_nat k.
Proof.
  revert i k. induction g as [|x g IH]; intros i k Hk Hn Hfirst; [discriminate|].
  destruct k as [|k]; simpl in *.
  - inversion Hk; subst x. unfold same_name in Hn. rewrite Hn. lia.
  - pose proof (Hfirst 0%nat x ltac:(lia) eq_refl) as Hx. unfold same_name in Hx.
    rewrite Hx. rewrite (IH (i + 1) k Hk Hn); [lia|].
    intros j it' Hj Hit'. apply (Hfirst (S j) it'); [lia | exact Hit'].
Qed.

Lemma find_from_found i g n :
  0 <= i -> 0 <= find_from i g n ->
  exists k it, find_from i g n = i + Z.of_nat k /\ g !! k = Some it
               /\ same_name (name it) n = true.
Proof.
  revert i. induction g as [|x g IH]; intros i Hi H; simpl in *; [lia|].
  destruct (strcasecmp (name x) n =? 0) eqn:E.
  - exists 0%nat, x. repeat split; [lia | exact E].
  - destruct (IH (i + 1) ltac:(lia) H) as (k & it & Hf & Hk & Hn).
    exists (S k), it. repeat split; [lia | exact Hk | exact Hn].
Qed.

Lemma find_from_missing i g n :
  0 <= i -> find_from i g n < 0 ->
  Forall (fun it => same_name (name it) n = false) g.
Proof.
  revert i. induction g as [|x g IH]; intros i Hi H; simpl in *; [constructor|].
  destruct (strcasecmp (name x) n =? 0) eqn:E; [lia|].
  constructor; [exact E | apply (IH (i + 1)); lia].
Qed.

(** In a store with unique names the item a name matches is the one
    [find_item] returns. *)
Lemma find_from_unique g n k it :
  unique_names g -> g !! k = Some it -> same_name (name it) n = true ->
  find_from 0 g n = Z.of_nat k.
Proof.
  intros U Hk Hn. rewrite (find_from_first 0 g n k it Hk Hn); [lia|].
  intros j it' Hj Hit'. destruct (same_name (name it') n) eqn:E; [|reflexivity].
  assert (j = k); [|lia].
  apply (U j k it' it Hit' Hk).
  apply (same_name_trans _ n); [exact E | now rewrite same_name_sym].
Qed.

(** ** The operations of the record store, path by path *)

Ltac run_m :=
  unfold add_item, remove_item, update_quantity, bind, ret, print, read, write,
    push, pop, g_count, find_item, clear; simpl.

Lemma wrap_int_id z : INT_MIN <= z <= INT_MAX -> wrap_int z = z.
Proof.
  unfold wrap_int, INT_MIN, INT_MAX. intros H.
  rewrite Z.mod_small; lia.
Qed.

Lemma valid_name_checks n :
  (strlen n =? 0) || (MAX_NAME_LEN <=? strlen n) = negb (valid_name n).
Proof.
  unfold valid_name, strlen, MAX_NAME_LEN.
  destruct (Z.eqb_spec (Z.of_nat (length (c_str n))) 0),
    (Z.leb_spec 64 (Z.of_nat (length (c_str n)))),
    (Z.ltb_spec 0 (Z.of_nat (length (c_str n)))),
    (Z.ltb_spec (Z.of_nat (length (c_str n))) 64); simpl; try reflexivity; lia.
Qed.

Lemma add_item_invalid_name g n q p :
  valid_name n = false ->
  add_item n q p g = (false, g, [ERROR_invalid_name]).
Proof.
  intros V. unfold add_item. rewrite valid_name_checks, V. reflexivity.
Qed.

Lemma add_item_bad_quantity g n q p :
  valid_name n = true -> q <= 0 ->
  add_item n q p g = (false, g, [ERROR_quantity_not_positive]).
Proof.
  intros V Q. unfold add_item. rewrite valid_name_checks, V. simpl.
  apply Z.leb_le in Q. rewrite Q. reflexivity.
Qed.

Lemma add_item_bad_price g n q p :
  valid_name n = true -> 0 < q -> PrimFloat.ltb p 0%float = true ->
  add_item n q p g = (false, g, [ERROR_price_negative]).
Proof.
  intros V Q P. unfold add_item. rewrite valid_name_checks, V. simpl.
  apply Z.leb_gt in Q. rewrite Q, P. reflexivity.
Qed.

Lemma add_item_restock_at g n q p k it :
  valid_name n = true -> 0 < q -> PrimFloat.ltb p 0%float = false ->
  find_from 0 g n = Z.of_nat k -> g !! k = Some it ->
  add_item n q p g =
    (true, <[k := mkItem (name it) (wrap_int (quantity it + q)) p]> g,
     [OK_restocked (name it) (wrap_int (quantity it + q)) p]).
Proof.
  intros V Q P F K. unfold add_item. rewrite valid_name_checks, V. simpl.
  apply Z.leb_gt in Q. rewrite Q, P. run_m. rewrite F.
  destruct (Z.leb_spec 0 (Z.of_nat k)); [|lia].
  rewrite Nat2Z.id. rewrite (nth_lookup_Some _ _ _ _ K).
  assert (k < length g)%nat as L by (eapply lookup_lt_Some; eauto).
  rewrite (nth_lookup_Some _ _ _ (mkItem (name it) (wrap_int (quantity it + q)) p));
    [reflexivity|].
  now apply list_lookup_insert_eq.
Qed.

Lemma add_item_new g n q p :
  valid_name n = true -> 0 < q -> PrimFloat.ltb p 0%float = false ->
  find_from 0 g n = -1 -> Z.of_nat (length g) < MAX_ITEMS ->
  add_item n q p g =
    (true, g ++ [mkItem (strncpy (MAX_NAME_LEN - 1) n) q p], [OK_added n q p]).
Proof.
  intros V Q P F L. unfold add_item. rewrite valid_name_checks, V. simpl.
  apply Z.leb_gt in Q. rewrite Q, P. run_m. rewrite F. simpl.
  apply Z.leb_gt in L. rewrite L. reflexivity.
Qed.

Lemma add_item_full g n q p :
  valid_name n = true -> 0 < q -> PrimFloat.ltb p 0%float = false ->
  find_from 0 g n = -1 -> MAX_ITEMS <= Z.of_nat (length g) ->
  add_item n q p g = (false, g, [ERROR_full]).
Proof.
  intros V Q P F L. unfold add_item. rewrite valid_name_checks, V. simpl.
  apply Z.leb_gt in Q. rewrite Q, P. run_m. rewrite F. simpl.
  apply Z.leb_le in L. rewrite L. reflexivity.
Qed.

Lemma update_quantity_negative g n q :
  q < 0 -> update_quantity n q g = (false, g, [ERROR_quantity_negative]).
Proof. intros Q. unfold update_quantity. apply Z.ltb_lt in Q. now rewrite Q. Qed.

Lemma update_quantity_missing g n q :
  0 <= q -> find_from 0 g n = -1 ->
  update_quantity n q g = (false, g, [ERROR_item_not_found n]).
Proof.
  intros Q F. unfold update_quantity. apply Z.ltb_ge in Q. rewrite Q.
  run_m. rewrite F. reflexivity.
Qed.

Lemma update_quantity_at g n q k it :
  0 <= q -> find_from 0 g n = Z.of_nat k -> g !! k = Some it ->
  update_quantity n q g =
    (true, <[k := mkItem (name it) q (price it)]> g, [OK_quantity n q]).
Proof.
  intros Q F K. unfold update_quantity. apply Z.ltb_ge in Q. rewrite Q.
  run_m. rewrite F. destruct (Z.ltb_spec (Z.of_nat k) 0); [lia|].
  rewrite Nat2Z.id, (nth_lookup_Some _ _ _ _ K). reflexivity.
Qed.

(** The shifting loop of [remove_item]: [k] slots from [i] on receive
    their right neighbour. *)
Lemma shift_left_spec k i (g : store) :
  (i + k < length g)%nat ->
  shift_left k (Z.of_nat i) g =
    (tt, take i g ++ take k (drop (S i) g) ++ drop (i + k) g, []).
Proof.
  revert i g. induction k as [|k IH]; intros i g L; simpl.
  - unfold ret. rewrite Nat.add_0_r, take_drop. reflexivity.
  - run_m. replace (Z.of_nat i + 1) with (Z.of_nat (S i)) by lia.
    rewrite !Nat2Z.id. 
    destruct (lookup_lt_is_Some_2 g (S i) ltac:(lia)) as [x Hx].
    rewrite (nth_lookup_Some _ _ _ _ Hx).
    rewrite IH by (rewrite length_insert; lia). 
    rewrite (take_S_r _ i x) by (apply list_lookup_insert_eq; lia).
    rewrite take_insert_ge by lia.
    rewrite !drop_insert_lt by lia.
    rewrite (drop_S g x (S i) Hx). simpl.
    rewrite <- app_assoc. simpl. 
    replace (i + S k)%nat with (S (i + k)) by lia. reflexivity.
Qed.

Lemma remove_item_missing (g : store) n :
  find_from 0 g n = -1 ->
  remove_item n g = (false, g, [ERROR_item_not_found n]).
Proof. intros F. run_m. rewrite F. reflexivity. Qed.

Lemma remove_item_at (g : store) n k it :
  find_from 0 g n = Z.of_nat k -> g !! k = Some it ->
  remove_item n g = (true, take k g ++ drop (S k) g, [OK_removed n]).
Proof.
  intros F K. assert (k < length g)%nat as L by (eapply lookup_lt_Some; eauto).
  unfold remove_item, bind, find_item, g_count. rewrite F.
  destruct (Z.ltb_spec (Z.of_nat k) 0); [lia|].
  replace (Z.to_nat (Z.of_nat (length g) - 1 - Z.of_nat k)) with (length g - 1 - k)%nat by lia.
  rewrite shift_left_spec by lia. run_m. f_equal. f_equal.
  rewrite (take_ge (drop (S k) g)) by (rewrite length_drop; lia).
  rewrite !length_app, length_take, !length_drop.
  rewrite app_assoc. rewrite take_app_length'; [reflexivity|].
  rewrite length_app, length_take, length_drop. lia.
Qed.

(** ** The store invariant *)

Lemma c_str_idem s : c_str (c_str s) = c_str s.
Proof.
  induction s as [|c s IH]; simpl; [reflexivity|].
  destruct (is_nul c) eqn:E; simpl; [reflexivity|]. now rewrite E, IH.
Qed.

Lemma c_str_take n s : c_str (take n (c_str s)) = take n (c_str s).
Proof.
  revert n. induction s as [|c s IH]; intros [|n]; simpl; try reflexivity.
  destruct (is_nul c) eqn:E; simpl; [reflexivity|]. now rewrite E, IH.
Qed.

Lemma strncpy_valid n : valid_name n = true -> strncpy (MAX_NAME_LEN - 1) n = c_str n.
Proof.
  unfold valid_name, strncpy, strlen, MAX_NAME_LEN. intros V.
  apply andb_prop in V as [_ V]. apply Z.ltb_lt in V.
  apply take_ge. lia.
Qed.

Lemma same_name_c_str n : same_name (c_str n) n = true.
Proof. apply same_name_key. unfold fold_key. now rewrite c_str_idem. Qed.

Lemma valid_name_c_str n : valid_name (c_str n) = valid_name n.
Proof. apply same_name_valid, same_name_c_str. Qed.

Lemma store_ok_empty : store_ok [].
Proof.
  split; [|split].
  - intros i j a b H. discriminate.
  - constructor.
  - unfold MAX_ITEMS. simpl. lia.
Qed.

Lemma store_ok_insert (g : store) k it it' :
  store_ok g -> g !! k = Some it -> name it' = name it -> store_ok (<[k := it']> g).
Proof.
  intros (U & V & L) K N. split; [|split].
  - intros i j a b Ha Hb.
    assert (forall i a, <[k := it']> g !! i = Some a ->
                        exists a0, g !! i = Some a0 /\ name a = name a0) as P.
    { intros i0 a0 H. destruct (decide (k = i0)) as [->|Hne].
      - rewrite list_lookup_insert_eq in H by (eapply lookup_lt_Some; eauto).
        inversion H; subst. eauto.
      - rewrite list_lookup_insert_ne in H by exact Hne. eauto. }
    destruct (P i a Ha) as (a0 & Ha0 & ->). destruct (P j b Hb) as (b0 & Hb0 & ->).
    apply (U i j a0 b0 Ha0 Hb0).
  - apply Forall_insert; [exact V|]. rewrite N.
    apply (proj1 (Forall_lookup _ _) V k it K).
  - rewrite length_insert. exact L.
Qed.

Lemma store_ok_push (g : store) it :
  store_ok g -> find_from 0 g (name it) = -1 ->
  valid_name (name it) = true -> c_str (name it) = name it ->
  Z.of_nat (length g) < MAX_ITEMS -> store_ok (g ++ [it]).
Proof.
  intros (U & V & L) F Vn Cn Lt.
  pose proof (find_from_missing 0 g (name it) ltac:(lia) ltac:(lia)) as Miss.
  rewrite Forall_lookup in Miss.
  split; [|split].
  - intros i j a b Ha Hb S.
    apply lookup_app_Some in Ha as [Ha|[Hi Ha]]; apply lookup_app_Some in Hb as [Hb|[Hj Hb]].
    + apply (U i j a b Ha Hb S).
    + apply list_lookup_singleton_Some in Hb as [_ <-].
      rewrite (Miss i a Ha) in S. discriminate.
    + apply list_lookup_singleton_Some in Ha as [_ <-].
      rewrite same_name_sym, (Miss j b Hb) in S. discriminate.
    + apply list_lookup_singleton_Some in Ha as [Ha _].
      apply list_lookup_singleton_Some in Hb as [Hb _]. lia.
  - apply Forall_app. split; [exact V|]. constructor; [tauto | constructor].
  - rewrite length_app. simpl. lia.
Qed.

Lemma store_ok_delete (g : store) k :
  store_ok g -> store_ok (take k g ++ drop (S k) g).
Proof.
  intros (U & V & L). split; [|split].
  - intros i j a b Ha Hb Sn.
    assert (forall i a, (take k g ++ drop (S k) g) !! i = Some a ->
              g !! (if decide (i < k)%nat then i else S i) = Some a) as P.
    { intros i0 a0 H. apply lookup_app_Some in H as [H|[Hi H]].
      - apply lookup_take_Some in H as [H Hlt]. destruct (decide (i0 < k)%nat); [exact H | contradiction].
      - rewrite lookup_drop in H. pose proof (lookup_lt_Some _ _ _ H) as Hl.
        rewrite length_take in Hi, H, Hl.
        rewrite Nat.min_l in Hi, H by lia.
        destruct (decide (i0 < k)%nat); [exfalso; lia|].
        replace (S i0) with (S k + (i0 - k))%nat by lia. exact H. }
    pose proof (U _ _ a b (P i a Ha) (P j b Hb) Sn) as E.
    destruct (decide (i < k)%nat), (decide (j < k)%nat); lia.
  - apply Forall_app. split; [now apply Forall_take | now apply Forall_drop].
  - rewrite length_app, length_take, length_drop. lia.
Qed.

Lemma find_from_same_name i (g : store) n n' :
  same_name n n' = true -> find_from i g n = find_from i g n'.
Proof.
  intros E. revert i. induction g as [|x g IH]; intros i; simpl; [reflexivity|].
  rewrite IH. change (strcasecmp (name x) n =? 0) with (same_name (name x) n).
  change (strcasecmp (name x) n' =? 0) with (same_name (name x) n').
  replace (same_name (name x) n') with (same_name (name x) n); [reflexivity|].
  apply eq_true_iff_eq. split; intros H.
  - now apply (same_name_trans _ n).
  - apply (same_name_trans _ n'); [exact H | now rewrite same_name_sym].
Qed.

Lemma store_ok_push_name (g : store) n q p :
  store_ok g -> find_from 0 g n < 0 -> valid_name n = true ->
  Z.of_nat (length g) < MAX_ITEMS ->
  store_ok (g ++ [mkItem (strncpy (MAX_NAME_LEN - 1) n) q p]).
Proof.
  intros Ok F V L. rewrite (strncpy_valid n V). apply store_ok_push; simpl.
  - exact Ok.
  - rewrite (find_from_same_name 0 g (c_str n) n (same_name_c_str n)).
    destruct (find_from_range 0 g n); lia.
  - now rewrite valid_name_c_str.
  - apply c_str_idem.
  - exact L.
Qed.

Lemma add_item_ok (g : store) n q p :
  store_ok g -> store_ok (store_of (add_item n q p g)).
Proof.
  intros Ok. destruct (valid_name n) eqn:V;
    [|now rewrite add_item_invalid_name].
  destruct (Z.leb_spec q 0) as [Q|Q]; [now rewrite add_item_bad_quantity|].
  destruct (PrimFloat.ltb p 0%float) eqn:P; [now rewrite add_item_bad_price|].
  destruct (Z.leb_spec 0 (find_from 0 g n)) as [F|F].
  - destruct (find_from_found 0 g n ltac:(lia) F) as (k & it & Hf & Hk & Hn).
    rewrite (add_item_restock_at g n q p k it) by (auto; lia).
    now apply (store_ok_insert g k it).
  - assert (find_from 0 g n = -1) as F1 by (destruct (find_from_range 0 g n); lia).
    destruct (Z.leb_spec MAX_ITEMS (Z.of_nat (length g))) as [L|L].
    + now rewrite add_item_full.
    + rewrite add_item_new by auto. apply store_ok_push_name; auto.
Qed.

Lemma remove_item_ok (g : store) n :
  store_ok g -> store_ok (store_of (remove_item n g)).
Proof.
  intros Ok. destruct (Z.leb_spec 0 (find_from 0 g n)) as [F|F].
  - destruct (find_from_found 0 g n ltac:(lia) F) as (k & it & Hf & Hk & Hn).
    rewrite (remove_item_at g n k it) by (auto; lia).
    now apply store_ok_delete.
  - assert (find_from 0 g n = -1) as F1 by (destruct (find_from_range 0 g n); lia).
    now rewrite remove_item_missing.
Qed.

Lemma update_quantity_ok (g : store) n q :
  store_ok g -> store_ok (store_of (update_quantity n q g)).
Proof.
  intros Ok. destruct (Z.ltb_spec q 0) as [Q|Q]; [now rewrite update_quantity_negative|].
  destruct (Z.leb_spec 0 (find_from 0 g n)) as [F|F].
  - destruct (find_from_found 0 g n ltac:(lia) F) as (k & it & Hf & Hk & Hn).
    rewrite (update_quantity_at g n q k it) by (auto; lia).
    now apply (store_ok_insert g k it).
  - assert (find_from 0 g n = -1) as F1 by (destruct (find_from_range 0 g n); lia).
    now rewrite update_quantity_missing.
Qed.

(** ** Reading one line *)

(** What a line can do to the store: nothing, or append one record. *)
Lemma load_line_cases cap lineno buf (g : store) :
  (exists out, load_line cap lineno buf g = (Continue, g, out)
               /\ Forall (fun m => m <> WARN_capacity) out)
  \/ (load_line cap lineno buf g = (Break, g, [WARN_capacity])
      /\ cap <= Z.of_nat (length g))
  \/ (exists n q p,
       load_line cap lineno buf g
         = (Continue, g ++ [mkItem (strncpy (MAX_NAME_LEN - 1) n) q p], [])
       /\ valid_name n = true /\ find_from 0 g n < 0
       /\ Z.of_nat (length g) < cap /\ 0 <= q <= 1000000).
Proof.
  assert (forall m, m <> WARN_capacity -> Forall (fun m => m <> WARN_capacity) [m]) as One
    by (intros; constructor; [assumption | constructor]).
  unfold load_line.
  destruct (trim (c_str buf)) as [|c line]; [left; eexists; split; [reflexivity | constructor]|].
  destruct (is_char 35 c); [left; eexists; split; [reflexivity | constructor]|].
  unfold bind, g_count, find_item, print, ret, push.
  destruct (Z.leb_spec cap (Z.of_nat (length g))) as [C|C];
    [right; left; split; [reflexivity | exact C]|].
  destruct (strtok (strncpy (LINE_BUF - 1) (c :: line))) as [t1 s1].
  destruct (strtok s1) as [t2 s2]. destruct (strtok s2) as [t3 s3].
  destruct t1 as [t1|]; [|left; eexists; split; [reflexivity | now apply One]].
  destruct t2 as [t2|]; [|left; eexists; split; [reflexivity | now apply One]].
  destruct t3 as [t3|]; [|left; eexists; split; [reflexivity | now apply One]].
  rewrite valid_name_checks.
  destruct (valid_name (trim t1)) eqn:V; simpl;
    [|left; eexists; split; [reflexivity | now apply One]].
  destruct (strtol (trim t2)) as [lqty ep].
  destruct (strlen ep =? 0); simpl; [|left; eexists; split; [reflexivity | now apply One]].
  destruct (Z.ltb_spec lqty 0); simpl; [left; eexists; split; [reflexivity | now apply One]|].
  destruct (Z.ltb_spec 1000000 lqty); simpl;
    [left; eexists; split; [reflexivity | now apply One]|].
  destruct (strtod (trim t3)) as [p ep'].
  destruct (negb (strlen ep' =? 0) || PrimFloat.ltb p 0 || PrimFloat.ltb 1000000000 p);
    [left; eexists; split; [reflexivity | now apply One]|].
  destruct (Z.leb_spec 0 (find_from 0 g (trim t1))); simpl;
    [left; eexists; split; [reflexivity | now apply One]|].
  right; right. exists (trim t1), lqty, p. repeat split; auto; lia.
Qed.

(** ** The reading loop *)

Lemma load_loop_nil cap lineno : load_loop cap [] lineno = ret [].
Proof. now simp load_loop. Qed.

Lemma load_loop_cons cap c fp lineno :
  load_loop cap (c :: fp) lineno =
    (f <- load_line cap (lineno + 1) (fgets_buf (c :: fp)) ;;
     match f with
     | Break => ret (fgets_rest (c :: fp))
     | Continue => load_loop cap (fgets_rest (c :: fp)) (lineno + 1)
     end).
Proof. now simp load_loop. Qed.

Lemma fgets_rest_shorter c fp :
  (length (fgets_rest (c :: fp)) < length (c :: fp))%nat.
Proof. apply (fgets_chars_shorter 254). Qed.

(** Induction over the iterations of the loop. *)
Lemma load_loop_induction cap (P : list ascii -> Z -> store -> list ascii * store * list msg -> Prop) :
  (forall lineno g, P [] lineno g ([], g, [])) ->
  (forall c fp lineno g g1 o1,
      load_line cap (lineno + 1) (fgets_buf (c :: fp)) g = (Break, g1, o1) ->
      P (c :: fp) lineno g (fgets_rest (c :: fp), g1, o1)) ->
  (forall c fp lineno g g1 o1 r g2 o2,
      load_line cap (lineno + 1) (fgets_buf (c :: fp)) g = (Continue, g1, o1) ->
      load_loop cap (fgets_rest (c :: fp)) (lineno + 1) g1 = (r, g2, o2) ->
      P (fgets_rest (c :: fp)) (lineno + 1) g1 (r, g2, o2) ->
      P (c :: fp) lineno g (r, g2, o1 ++ o2)) ->
  forall fp lineno g, P fp lineno g (load_loop cap fp lineno g).
Proof.
  intros Hnil Hbreak Hcont fp.
  induction fp as [fp IH] using (induction_ltof1 _ (@length ascii)).
  unfold ltof in IH. intros lineno g. destruct fp as [|c fp].
  - rewrite load_loop_nil. apply Hnil.
  - rewrite load_loop_cons. unfold bind.
    destruct (load_line cap (lineno + 1) (fgets_buf (c :: fp)) g) as [[f g1] o1] eqn:E.
    destruct f.
    + destruct (load_loop cap (fgets_rest (c :: fp)) (lineno + 1) g1) as [[r g2] o2] eqn:E2.
      apply (Hcont c fp lineno g g1 o1 r g2 o2 E E2).
      rewrite <- E2. apply IH, fgets_rest_shorter.
    + unfold ret. rewrite app_nil_r. now apply Hbreak.
Qed.

Lemma load_line_ok cap lineno buf (g : store) :
  cap <= MAX_ITEMS -> store_ok g -> store_ok (store_of (load_line cap lineno buf g)).
Proof.
  intros C Ok.
  destruct (load_line_cases cap lineno buf g)
    as [(out & -> & _)|[(-> & _)|(n & q & p & -> & V & F & L & _)]]; try exact Ok.
  apply store_ok_push_name; auto; lia.
Qed.

Lemma load_loop_ok cap fp lineno (g : store) :
  cap <= MAX_ITEMS -> store_ok g -> store_ok (store_of (load_loop cap fp lineno g)).
Proof.
  intros C. revert fp lineno g.
  apply (load_loop_induction cap (fun fp lineno g r => store_ok g -> store_ok (store_of r))).
  - intros lineno g Ok. exact Ok.
  - intros c fp lineno g g1 o1 E Ok.
    pose proof (load_line_ok cap (lineno + 1) (fgets_buf (c :: fp)) g C Ok) as H.
    now rewrite E in H.
  - intros c fp lineno g g1 o1 r g2 o2 E E2 IH Ok. apply IH.
    pose proof (load_line_ok cap (lineno + 1) (fgets_buf (c :: fp)) g C Ok) as H.
    now rewrite E in H.
Qed.

Lemma load_inventory_store f (g : store) :
  store_of (load_inventory f g) =
    match f with
    | File content => store_of (load_loop MAX_ITEMS content 0 [])
    | _ => g
    end.
Proof.
  destruct f as [|content|]; try reflexivity.
  unfold load_inventory, bind, clear, g_count, print, ret.
  destruct (load_loop MAX_ITEMS content 0 []) as [[r g1] o1]. reflexivity.
Qed.

Lemma load_inventory_ok f (g : store) :
  store_ok g -> store_ok (store_of (load_inventory f g)).
Proof.
  intros Ok. rewrite load_inventory_store. destruct f; try exact Ok.
  apply load_loop_ok; [lia | apply store_ok_empty].
Qed.

Lemma exec_ok o (g : store) : store_ok g -> store_ok (store_of (exec o g)).
Proof.
  destruct o; simpl.
  - apply add_item_ok.
  - apply remove_item_ok.
  - apply update_quantity_ok.
  - apply load_inventory_ok.
Qed.

Lemma reachable_ok (g : store) : reachable g -> store_ok g.
Proof.
  induction 1 as [|o g _ IH]; [apply store_ok_empty | now apply exec_ok].
Qed.

Lemma run_reachable ops (g : store) : reachable g -> reachable (run ops g).
Proof.
  revert g. induction ops as [|o ops IH]; intros g R; simpl; [exact R|].
  apply IH. now constructor.
Qed.

Lemma full_store_run : full_store = run (fill_ops 500) [].
Proof. vm_compute. reflexivity. Qed.

Lemma full_store_reachable : reachable full_store.
Proof. rewrite full_store_run. apply run_reachable. constructor. Qed.

Opaque full_store.

Lemma matching_item_found (g : store) n i it :
  reachable g -> g !! i = Some it -> same_name (name it) n = true ->
  find_from 0 g n = Z.of_nat i /\ valid_name n = true.
Proof.
  intros R K N. destruct (reachable_ok g R) as (U & V & _). split.
  - now apply (find_from_unique g n i it).
  - rewrite <- (same_name_valid _ _ N).
    apply (proj1 (Forall_lookup _ _) V i it K).
Qed.

Lemma lookup_remove (g : store) i j :
  (take i g ++ drop (S i) g) !! j = if decide (j < i)%nat then g !! j else g !! S j.
Proof.
  destruct (decide (j < i)%nat) as [Lt|Ge].
  - destruct (decide (j < length g)%nat).
    + rewrite lookup_app_l by (rewrite length_take; lia). now apply lookup_take_lt.
    + rewrite !lookup_ge_None_2; auto; [lia|].
      rewrite length_app, length_take, length_drop. lia.
  - destruct (decide (i < length g)%nat).
    + rewrite lookup_app_r by (rewrite length_take; lia).
      rewrite lookup_drop, length_take. f_equal. lia.
    + rewrite take_ge, drop_ge, app_nil_r by lia.
      rewrite !lookup_ge_None_2; auto; lia.
Qed.

(** C1 (as amended): for every store state and every call Add(name, q, p)
    with q > 0, a price that is not negative and a sum that fits an int,
    where an item whose name equals [name] ignoring case exists, the call
    succeeds, that item's quantity becomes its old quantity plus q, its
    price becomes exactly p and nothing else changes; in particular
    Add("X",5,1.0) then Add("X",3,2.0) on a store without "X" that is
    below capacity yields an item "X" with quantity 8 and price 2.0. *)
Theorem add_restock_accumulates :
  (forall (g : store) n q p i it,
      reachable g -> g !! i = Some it -> same_name (name it) n = true ->
      0 < q -> PrimFloat.ltb p 0%float = false ->
      INT_MIN <= quantity it + q <= INT_MAX ->
      add_item n q p g =
        (true, <[i := mkItem (name it) (quantity it + q) p]> g,
         [OK_restocked (name it) (quantity it + q) p]))
  /\ (forall (g : store),
      Forall (fun it => same_name (name it) (str "X") = false) g ->
      Z.of_nat (length g) < MAX_ITEMS ->
      (add_item (str "X") 5 1%float ;; add_item (str "X") 3 2%float) g =
        (true, g ++ [mkItem (str "X") 8 2%float],
         [OK_added (str "X") 5 1%float; OK_restocked (str "X") 8 2%float])).
Proof.
  split.
  - intros g n q p i it R K N Q P B.
    destruct (matching_item_found g n i it R K N) as [F V].
    rewrite (add_item_restock_at g n q p i it V Q P F K).
    now rewrite wrap_int_id.
  - intros g Miss L. unfold bind.
    rewrite (add_item_new g (str "X") 5 1%float) by
      (try reflexivity; try lia; now apply find_from_absent).
    rewrite (add_item_restock_at _ (str "X") 3 2%float (length g) (mkItem (str "X") 5 1%float)).
    + simpl. f_equal. f_equal.
      replace (length g) with (length g + 0)%nat at 1 by lia.
      now rewrite insert_app_r.
    + reflexivity.
    + lia.
    + reflexivity.
    + rewrite (find_from_first 0 _ (str "X") (length g) (mkItem (str "X") 5 1%float)).
      * lia.
      * rewrite lookup_app_r by lia. now rewrite Nat.sub_diag.
      * reflexivity.
      * intros j it' Hj Hit'. rewrite lookup_app_l in Hit' by lia.
        apply (proj1 (Forall_lookup _ _) Miss j it' Hit').
    + rewrite lookup_app_r by lia. now rewrite Nat.sub_diag.
Qed.

Lemma add_restock_accumulates_witness :
  add_item (str "x") 3 2%float [mkItem (str "X") 5 1%float] =
    (true, [mkItem (str "X") 8 2%float], [OK_restocked (str "X") 8 2%float])
  /\ (add_item (str "X") 5 1%float ;; add_item (str "X") 3 2%float)
       [mkItem (str "Y") 1 1%float] =
     (true, [mkItem (str "Y") 1 1%float; mkItem (str "X") 8 2%float],
      [OK_added (str "X") 5 1%float; OK_restocked (str "X") 8 2%float]).
Proof.
  split.
  - apply (proj1 add_restock_accumulates [mkItem (str "X") 5 1%float] (str "x") 3 2%float
             0%nat (mkItem (str "X") 5 1%float)).
    + exact (reach_exec (Add (str "X") 5 1%float) [] reach_empty).
    + reflexivity.
    + reflexivity.
    + lia.
    + reflexivity.
    + vm_compute. split; discriminate.
  - apply (proj2 add_restock_accumulates [mkItem (str "Y") 1 1%float]).
    + repeat constructor.
    + vm_compute. reflexivity.
Defined.

(** C1 as stated fails where Add's guards apply: with quantity 0 or a
    negative price the call is refused although the item exists; a sum
    past INT_MAX does not become the stored quantity; and on a full store
    without "X" neither Add creates the item. *)
Lemma add_restock_counterexample :
  add_item (str "X") 0 1%float [mkItem (str "X") 5 1%float] =
    (false, [mkItem (str "X") 5 1%float], [ERROR_quantity_not_positive])
  /\ add_item (str "X") 3 (-1)%float [mkItem (str "X") 5 1%float] =
    (false, [mkItem (str "X") 5 1%float], [ERROR_price_negative])
  /\ store_of (add_item (str "X") 1 1%float [mkItem (str "X") INT_MAX 1%float]) =
    [mkItem (str "X") INT_MIN 1%float]
  /\ forallb (fun it => negb (same_name (name it) (str "X"))) full_store = true
  /\ (add_item (str "X") 5 1%float ;; add_item (str "X") 3 2%float) full_store =
       (false, full_store, [ERROR_full; ERROR_full]).
Proof.
  split; [vm_compute; reflexivity|].
  split; [vm_compute; reflexivity|].
  split; [vm_compute; reflexivity|].
  split; vm_compute; reflexivity.
Qed.

(** C2: for every sequence of operations (Add, Remove, SetQuantity, Load
    of any file) from the empty store, at most one item with a given
    case-insensitive name is in the store. *)
Theorem names_stay_unique : forall ops : list op, unique_names (run ops []).
Proof.
  intros ops. apply reachable_ok, run_reachable. constructor.
Qed.

(** C3 (the code at the failing input): two Adds of 1_000_000 units of
    the same name leave a quantity of 2_000_000, above the bound of
    1_000_000; the line Save writes for it is one Load refuses. *)
Lemma restock_exceeds_quantity_bound :
  run [Add (str "X") 1000000 1%float; Add (str "X") 1000000 1%float] [] =
    [mkItem (str "X") 2000000 1%float]
  /\ (r <- save_inventory NoFile ;; load_inventory (snd r))
       [mkItem (str "X") 2000000 1%float] =
     (true, [], [INFO_saved 1; WARN_quantity 2 (str "2000000"); INFO_loaded 0]).
Proof. split; vm_compute; reflexivity. Qed.

(** C4: for every store state [x_0 .. x_(n-1)] and every name matching
    [x_i] ignoring case, Remove succeeds and leaves
    [x_0 .. x_(i-1), x_(i+1) .. x_(n-1)]: what stood before [i] stays,
    what stood after [i] moves one place left; Remove of a name nothing
    matches fails with NotFound and leaves the store as it was. *)
Theorem remove_preserves_order :
  (forall (g : store) n i it,
      reachable g -> g !! i = Some it -> same_name (name it) n = true ->
      remove_item n g = (true, take i g ++ drop (S i) g, [OK_removed n])
      /\ forall j, store_of (remove_item n g) !! j
                   = if decide (j < i)%nat then g !! j else g !! S j)
  /\ (forall (g : store) n,
      Forall (fun it => same_name (name it) n = false) g ->
      remove_item n g = (false, g, [ERROR_item_not_found n])
      /\ kind_of (ERROR_item_not_found n) = Some NotFound).
Proof.
  split.
  - intros g n i it R K N.
    destruct (matching_item_found g n i it R K N) as [F _].
    rewrite (remove_item_at g n i it F K). split; [reflexivity|].
    intros j. apply lookup_remove.
  - intros g n Miss. split; [|reflexivity].
    apply remove_item_missing. now apply find_from_absent.
Qed.

Lemma abcd_reachable : reachable abcd.
Proof.
  exact (run_reachable
           [Add (str "A") 1 1%float; Add (str "B") 2 1%float;
            Add (str "C") 3 1%float; Add (str "D") 4 1%float] [] reach_empty).
Qed.

Lemma remove_preserves_order_witness :
  (remove_item (str "b") abcd =
     (true, [mkItem (str "A") 1 1%float; mkItem (str "C") 3 1%float;
             mkItem (str "D") 4 1%float], [OK_removed (str "b")]))
  /\ remove_item (str "E") abcd = (false, abcd, [ERROR_item_not_found (str "E")]).
Proof.
  split.
  - apply (proj1 remove_preserves_order abcd (str "b") 1%nat (mkItem (str "B") 2 1%float)).
    + exact abcd_reachable.
    + reflexivity.
    + reflexivity.
  - apply (proj2 remove_preserves_order abcd (str "E")).
    repeat constructor.
Defined.

(** C8 (as amended): for every store state and every valid name
    (non-empty, at most 63 characters), Add with quantity 0 fails with
    InvalidQuantity and leaves the store unchanged; for any other name it
    fails with InvalidName, the store unchanged as well.  SetQuantity with
    new quantity 0 on an existing name succeeds and sets that item's stock
    to exactly zero; the item stays where it is. *)
Theorem zero_quantity_boundary :
  (forall (g : store) n p,
      valid_name n = true ->
      add_item n 0 p g = (false, g, [ERROR_quantity_not_positive])
      /\ kind_of ERROR_quantity_not_positive = Some InvalidQuantity)
  /\ (forall (g : store) n p,
      valid_name n = false ->
      add_item n 0 p g = (false, g, [ERROR_invalid_name]))
  /\ (forall (g : store) n i it,
      reachable g -> g !! i = Some it -> same_name (name it) n = true ->
      update_quantity n 0 g =
        (true, <[i := mkItem (name it) 0 (price it)]> g, [OK_quantity n 0])).
Proof.
  split; [|split].
  - intros g n p V. split; [|reflexivity]. apply add_item_bad_quantity; [exact V | lia].
  - intros g n p V. now apply add_item_invalid_name.
  - intros g n i it R K N.
    destruct (matching_item_found g n i it R K N) as [F _].
    apply update_quantity_at; [lia | exact F | exact K].
Qed.

Lemma zero_quantity_boundary_witness :
  add_item (str "B") 0 1%float abcd = (false, abcd, [ERROR_quantity_not_positive])
  /\ add_item [] 0 1%float abcd = (false, abcd, [ERROR_invalid_name])
  /\ update_quantity (str "b") 0 abcd =
       (true, [mkItem (str "A") 1 1%float; mkItem (str "B") 0 1%float;
               mkItem (str "C") 3 1%float; mkItem (str "D") 4 1%float],
        [OK_quantity (str "b") 0]).
Proof.
  split; [|split].
  - apply (proj1 zero_quantity_boundary abcd (str "B") 1%float). reflexivity.
  - apply (proj1 (proj2 zero_quantity_boundary) abcd [] 1%float). reflexivity.
  - apply (proj2 (proj2 zero_quantity_boundary) abcd (str "b") 1%nat
             (mkItem (str "B") 2 1%float)).
    + exact abcd_reachable.
    + reflexivity.
    + reflexivity.
Defined.

(** C8 as stated fails for a name Add refuses: with the empty name and
    quantity 0 the error is InvalidName, not InvalidQuantity. *)
Lemma zero_quantity_counterexample :
  map kind_of (output (add_item [] 0 1%float [])) = [Some InvalidName].
Proof. reflexivity. Qed.

(** What Load does where no file exists, on any store: it returns true,
    prints the note and does not touch the store. *)
Lemma load_inventory_missing (g : store) :
  load_inventory NoFile g = (true, g, [INFO_not_found])
  /\ kind_of INFO_not_found = None.
Proof. split; reflexivity. Qed.


Lemma restock_never_full (g : store) n q p i it :
  reachable g -> g !! i = Some it -> same_name (name it) n = true ->
  ~ In ERROR_full (output (add_item n q p g)).
Proof.
  intros R K N. destruct (matching_item_found g n i it R K N) as [F V].
  destruct (Z.leb_spec q 0) as [Q|Q].
  { rewrite add_item_bad_quantity by auto. simpl. intuition discriminate. }
  destruct (PrimFloat.ltb p 0%float) eqn:P.
  { rewrite add_item_bad_price by auto. simpl. intuition discriminate. }
  rewrite (add_item_restock_at g n q p i it V Q P F K). simpl. intuition discriminate.
Qed.

(** C10: for every store state at the capacity bound (500 items), Add
    with a name that matches an existing item ignoring case still
    succeeds and restocks that item, for every quantity and price Add
    accepts; and whatever the quantity and the price, the capacity error
    is not reported for such a name: the capacity check applies only when
    a new entry would be appended. *)
Theorem restock_at_capacity (g : store) n q p i it :
  reachable g -> Z.of_nat (length g) = MAX_ITEMS ->
  g !! i = Some it -> same_name (name it) n = true ->
  (0 < q -> PrimFloat.ltb p 0%float = false ->
   add_item n q p g =
     (true, <[i := mkItem (name it) (wrap_int (quantity it + q)) p]> g,
      [OK_restocked (name it) (wrap_int (quantity it + q)) p]))
  /\ ~ In ERROR_full (output (add_item n q p g)).
Proof.
  intros R L K N. split.
  - intros Q P. destruct (matching_item_found g n i it R K N) as [F V].
    apply (add_item_restock_at g n q p i it V Q P F K).
  - apply (restock_never_full g n q p i it R K N).
Qed.

Lemma restock_at_capacity_witness :
  length full_store = 500%nat
  /\ add_item (str "ITEM7") 3 2%float full_store =
       (true, <[7%nat := mkItem (str "item7") 4 2%float]> full_store,
        [OK_restocked (str "item7") 4 2%float]).
Proof.
  split; [vm_compute; reflexivity|].
  apply (restock_at_capacity full_store (str "ITEM7") 3 2%float 7%nat
           (mkItem (str "item7") 1 1%float)).
  - exact full_store_reachable.
  - vm_compute. reflexivity.
  - vm_compute. reflexivity.
  - vm_compute. reflexivity.
  - lia.
  - reflexivity.
Defined.

Arguments fgets_buf : simpl never.
Arguments fgets_rest : simpl never.
Arguments load_loop : simpl never.
Arguments load_line : simpl never.

(** ** Fields of a line *)

Lemma fields_span s :
  fields s =
    fst (span (fun c => negb (is_comma c)) s)
    :: match snd (span (fun c => negb (is_comma c)) s) with
       | [] => []
       | _ :: r => fields r
       end.
Proof.
  induction s as [|c s IH]; simpl; [reflexivity|].
  destruct (is_comma c); simpl; [reflexivity|].
  rewrite IH. destruct (span (fun c => negb (is_comma c)) s) as [a b]. reflexivity.
Qed.

Lemma strtok_spec s :
  match strtok s with
  | (None, s') => nonempty_fields s = [] /\ s' = []
  | (Some t, s') => nonempty_fields s = t :: nonempty_fields s'
  end.
Proof.
  unfold strtok, nonempty_fields. induction s as [|c s IH]; simpl; [tauto|].
  destruct (is_comma c) eqn:C; simpl.
  - destruct (span is_comma s) as [a b]. exact IH.
  - rewrite C. simpl. rewrite (fields_span s).
    destruct (span (fun c => negb (is_comma c)) s) as [a b]. simpl.
    destruct b as [|d b]; reflexivity.
Qed.

Lemma strtok3_spec s :
  let '(t1, s1) := strtok s in
  let '(t2, s2) := strtok s1 in
  let '(t3, _) := strtok s2 in
  match nonempty_fields s with
  | f1 :: f2 :: f3 :: _ => t1 = Some f1 /\ t2 = Some f2 /\ t3 = Some f3
  | _ => t1 = None \/ t2 = None \/ t3 = None
  end.
Proof.
  pose proof (strtok_spec s) as H1. destruct (strtok s) as [[t1|] s1].
  - pose proof (strtok_spec s1) as H2. destruct (strtok s1) as [[t2|] s2].
    + pose proof (strtok_spec s2) as H3. destruct (strtok s2) as [[t3|] s3].
      * rewrite H1, H2, H3. tauto.
      * destruct H3 as [H3 _]. rewrite H1, H2, H3. tauto.
    + destruct H2 as [H2 ->]. simpl. rewrite H1, H2. tauto.
  - destruct H1 as [H1 ->]. simpl. rewrite H1. tauto.
Qed.

(** ** Lines as [fgets] delivers them *)

Lemma c_str_nul_free s : nul_free (c_str s).
Proof.
  induction s as [|c s IH]; simpl; [constructor|].
  destruct (is_nul c) eqn:E; constructor; assumption.
Qed.

Lemma c_str_id s : nul_free s -> c_str s = s.
Proof.
  induction 1 as [|c s Hc _ IH]; simpl; [reflexivity|]. now rewrite Hc, IH.
Qed.

Lemma skip_space_suffix s : exists a, s = a ++ skip_space s.
Proof.
  induction s as [|c s [a IH]]; simpl; [now exists []|].
  destruct (isspace c); [exists (c :: a); simpl; now f_equal | now exists []].
Qed.

Lemma drop_trailing_space_prefix s : exists b, s = drop_trailing_space s ++ b.
Proof.
  induction s as [|c s [b IH]]; simpl; [now exists []|].
  destruct (drop_trailing_space s) as [|d t] eqn:E.
  - destruct (isspace c); [exists (c :: s) | exists s]; reflexivity.
  - exists b. simpl. now f_equal.
Qed.

Lemma trim_infix s : exists a b, s = a ++ trim s ++ b.
Proof.
  unfold trim. destruct (skip_space_suffix s) as [a Ha].
  destruct (drop_trailing_space_prefix (skip_space s)) as [b Hb].
  exists a, b. now rewrite <- Hb.
Qed.

Lemma trim_nul_free s : nul_free s -> nul_free (trim s).
Proof.
  destruct (trim_infix s) as (a & b & E). intros H. rewrite E in H.
  unfold nul_free in *. rewrite !Forall_app in H. tauto.
Qed.

Lemma trim_length s : (length (trim s) <= length s)%nat.
Proof.
  destruct (trim_infix s) as (a & b & E). rewrite E at 2.
  rewrite !length_app. lia.
Qed.

Lemma c_str_length s : (length (c_str s) <= length s)%nat.
Proof.
  induction s as [|c s IH]; simpl; [lia|]. destruct (is_nul c); simpl; lia.
Qed.

Lemma fgets_chars_length room fp : (length (fst (fgets_chars room fp)) <= room)%nat.
Proof.
  revert fp. induction room as [|room IH]; intros [|c fp]; simpl; try lia.
  destruct (is_newline c); simpl; [lia|].
  specialize (IH fp). destruct (fgets_chars room fp). simpl in *. lia.
Qed.

Lemma fgets_buf_length fp : Z.of_nat (length (fgets_buf fp)) < LINE_BUF.
Proof.
  unfold fgets_buf. pose proof (fgets_chars_length (Z.to_nat (LINE_BUF - 1)) fp).
  unfold LINE_BUF in *. lia.
Qed.

(** The copy of the trimmed line into [tmp] is the whole line. *)
Lemma tmp_is_line buf :
  Z.of_nat (length buf) < LINE_BUF ->
  strncpy (LINE_BUF - 1) (trim (c_str buf)) = trim (c_str buf).
Proof.
  intros L. unfold strncpy.
  rewrite (c_str_id (trim (c_str buf))) by apply trim_nul_free, c_str_nul_free.
  apply take_ge. pose proof (trim_length (c_str buf)). pose proof (c_str_length buf). lia.
Qed.

Lemma fields_nul_free s : nul_free s -> Forall nul_free (fields s).
Proof.
  induction 1 as [|c s Hc Hs IH]; simpl; [repeat constructor|].
  destruct (is_comma c).
  - constructor; [constructor | exact IH].
  - destruct (fields s) as [|f fs]; [repeat constructor; assumption|].
    inversion IH; subst. constructor; [constructor; assumption | assumption].
Qed.

Lemma nonempty_fields_nul_free s f :
  nul_free s -> In f (nonempty_fields s) -> nul_free f.
Proof.
  intros H I. unfold nonempty_fields in I. apply filter_In in I as [I _].
  pose proof (fields_nul_free s H) as F. rewrite Forall_forall in F.
  apply F. now apply list_elem_of_In.
Qed.

Lemma load_line_malformed cap lineno buf (g : store) :
  Z.of_nat (length buf) < LINE_BUF ->
  is_record_line (trim (c_str buf)) = true ->
  Z.of_nat (length g) < cap ->
  (length (nonempty_fields (trim (c_str buf))) < 3)%nat ->
  load_line cap lineno buf g = (Continue, g, [WARN_malformed lineno (trim (c_str buf))]).
Proof.
  intros L R C N.
  unfold load_line.
  pose proof (tmp_is_line _ L) as T.
  pose proof (strtok3_spec (trim (c_str buf))) as K.
  destruct (trim (c_str buf)) as [|c line] eqn:E; [discriminate R|].
  simpl in R. rewrite (proj1 (negb_true_iff _) R).
  unfold bind at 1, g_count at 1. cbv beta iota.
  apply Z.leb_gt in C. rewrite C. rewrite T.
  destruct (strtok (c :: line)) as [t1 s1]. destruct (strtok s1) as [t2 s2].
  destruct (strtok s2) as [t3 s3].
  destruct (nonempty_fields (c :: line)) as [|f1 [|f2 [|f3 more]]]; simpl in N; try lia;
    destruct K as [-> | [-> | ->]]; try reflexivity;
    destruct t1; try reflexivity; destruct t2; reflexivity.
Qed.

Lemma load_line_accept cap lineno buf (g : store) f1 f2 f3 more q p ep ep' :
  Z.of_nat (length buf) < LINE_BUF ->
  is_record_line (trim (c_str buf)) = true ->
  Z.of_nat (length g) < cap ->
  nonempty_fields (trim (c_str buf)) = f1 :: f2 :: f3 :: more ->
  valid_name (trim f1) = true ->
  strtol (trim f2) = (q, ep) -> strlen ep = 0 -> 0 <= q <= 1000000 ->
  strtod (trim f3) = (p, ep') -> strlen ep' = 0 ->
  PrimFloat.ltb p 0%float = false -> PrimFloat.ltb 1e9%float p = false ->
  find_from 0 g (trim f1) < 0 ->
  load_line cap lineno buf g =
    (Continue, g ++ [mkItem (strncpy (MAX_NAME_LEN - 1) (trim f1)) q p], []).
Proof.
  intros L R C N V Sq Eq Bq Sp Ep P0 P9 F.
  unfold load_line.
  pose proof (tmp_is_line _ L) as T.
  pose proof (strtok3_spec (trim (c_str buf))) as K.
  destruct (trim (c_str buf)) as [|c line] eqn:E; [discriminate R|].
  simpl in R. rewrite (proj1 (negb_true_iff _) R).
  unfold bind at 1, g_count at 1. cbv beta iota.
  apply Z.leb_gt in C. rewrite C. rewrite T.
  destruct (strtok (c :: line)) as [t1 s1]. destruct (strtok s1) as [t2 s2].
  destruct (strtok s2) as [t3 s3]. rewrite N in K. destruct K as [-> [-> ->]].
  rewrite valid_name_checks, V. simpl. rewrite Sq, Eq. simpl.
  destruct (Z.ltb_spec q 0); [lia|]. destruct (Z.ltb_spec 1000000 q); [lia|]. simpl.
  rewrite Sp, Ep, P0, P9. simpl.
  unfold bind, find_item, push, ret. destruct (Z.leb_spec 0 (find_from 0 g (trim f1))); [lia|].
  reflexivity.
Qed.

Lemma load_line_accept_inv cap lineno buf (g : store) it :
  Z.of_nat (length buf) < LINE_BUF ->
  store_of (load_line cap lineno buf g) = g ++ [it] ->
  exists (f1 f2 f3 : cstring) (more : list cstring),
    is_record_line (trim (c_str buf)) = true
    /\ nonempty_fields (trim (c_str buf)) = f1 :: f2 :: f3 :: more
    /\ it = mkItem (trim f1) (fst (strtol (trim f2))) (fst (strtod (trim f3)))
    /\ load_line cap lineno buf g = (Continue, g ++ [it], []).
Proof.
  intros L.
  assert (g <> g ++ [it]) as Ne.
  { intros H. apply (f_equal (@length Item)) in H. rewrite length_app in H. simpl in H. lia. }
  remember (load_line cap lineno buf g) as r eqn:Hr. intros H.
  unfold load_line in Hr.
  pose proof (tmp_is_line _ L) as T.
  pose proof (strtok3_spec (trim (c_str buf))) as K.
  pose proof (trim_nul_free _ (c_str_nul_free buf)) as NF.
  destruct (trim (c_str buf)) as [|c line] eqn:E;
    [subst r; destruct (Ne H)|].
  unfold is_record_line.
  destruct (is_char 35 c); [subst r; destruct (Ne H)|].
  unfold bind, g_count, find_item, print, ret, push in Hr.
  destruct (Z.leb_spec cap (Z.of_nat (length g))) as [C|C]; [subst r; destruct (Ne H)|].
  rewrite T in Hr.
  destruct (strtok (c :: line)) as [t1 s1]. destruct (strtok s1) as [t2 s2].
  destruct (strtok s2) as [t3 s3].
  destruct t1 as [t1|]; [|subst r; destruct (Ne H)].
  destruct t2 as [t2|]; [|subst r; destruct (Ne H)].
  destruct t3 as [t3|]; [|subst r; destruct (Ne H)].
  destruct (nonempty_fields (c :: line)) as [|f1 [|f2 [|f3 more]]] eqn:N;
    try (destruct K as [K | [K | K]]; discriminate K).
  destruct K as (K1 & K2 & K3). inversion K1; inversion K2; inversion K3; subst t1 t2 t3.
  rewrite valid_name_checks in Hr.
  destruct (valid_name (trim f1)) eqn:V; simpl in Hr; [|subst r; destruct (Ne H)].
  destruct (strtol (trim f2)) as [lqty ep] eqn:Sq.
  destruct (strlen ep =? 0); simpl in Hr; [|subst r; destruct (Ne H)].
  destruct (Z.ltb_spec lqty 0); simpl in Hr; [subst r; destruct (Ne H)|].
  destruct (Z.ltb_spec 1000000 lqty); simpl in Hr; [subst r; destruct (Ne H)|].
  destruct (strtod (trim f3)) as [p ep'] eqn:Sp.
  destruct (negb (strlen ep' =? 0) || PrimFloat.ltb p 0 || PrimFloat.ltb 1000000000 p);
    [subst r; destruct (Ne H)|].
  destruct (Z.leb_spec 0 (find_from 0 g (trim f1))); simpl in Hr; [subst r; destruct (Ne H)|].
  assert (strncpy (MAX_NAME_LEN - 1) (trim f1) = trim f1) as Nm.
  { rewrite strncpy_valid by exact V. apply c_str_id, trim_nul_free.
    apply (nonempty_fields_nul_free (c :: line)); [exact NF | rewrite N; now left]. }
  rewrite Nm in Hr. subst r. unfold store_of in H. simpl in H.
  apply app_inv_head in H. inversion H; subst it.
  exists f1, f2, f3, more. rewrite Sq, Sp. simpl. repeat split; reflexivity.
Qed.

Lemma load_line_not_record cap lineno buf (g : store) :
  is_record_line (trim (c_str buf)) = false ->
  load_line cap lineno buf g = (Continue, g, []).
Proof.
  unfold load_line, is_record_line. destruct (trim (c_str buf)) as [|c line]; [reflexivity|].
  intros R. apply negb_false_iff in R. now rewrite R.
Qed.

Lemma load_line_at_capacity cap lineno buf (g : store) :
  is_record_line (trim (c_str buf)) = true -> cap <= Z.of_nat (length g) ->
  load_line cap lineno buf g = (Break, g, [WARN_capacity]).
Proof.
  unfold load_line, is_record_line. destruct (trim (c_str buf)) as [|c line]; [discriminate|].
  intros R C. apply negb_true_iff in R. rewrite R.
  unfold bind at 1, g_count at 1. cbv beta iota. apply Z.leb_le in C. now rewrite C.
Qed.

Lemma load_line_cap_indep cap1 cap2 lineno buf (g : store) :
  Z.of_nat (length g) < cap1 -> Z.of_nat (length g) < cap2 ->
  load_line cap1 lineno buf g = load_line cap2 lineno buf g.
Proof.
  intros C1 C2. unfold load_line.
  destruct (trim (c_str buf)) as [|c line]; [reflexivity|].
  destruct (is_char 35 c); [reflexivity|].
  unfold bind, g_count. apply Z.leb_gt in C1, C2. now rewrite C1, C2.
Qed.

(** One iteration of the loop, by what the line did. *)
Lemma load_loop_continue cap c fp lineno (g g1 : store) o1 :
  load_line cap (lineno + 1) (fgets_buf (c :: fp)) g = (Continue, g1, o1) ->
  load_loop cap (c :: fp) lineno g =
    let '(r, g2, o2) := load_loop cap (fgets_rest (c :: fp)) (lineno + 1) g1 in
    (r, g2, o1 ++ o2).
Proof. intros E. rewrite load_loop_cons. unfold bind. now rewrite E. Qed.

Lemma load_loop_break cap c fp lineno (g g1 : store) o1 :
  load_line cap (lineno + 1) (fgets_buf (c :: fp)) g = (Break, g1, o1) ->
  load_loop cap (c :: fp) lineno g = (fgets_rest (c :: fp), g1, o1).
Proof.
  intros E. rewrite load_loop_cons. unfold bind. rewrite E. unfold ret.
  now rewrite app_nil_r.
Qed.

Lemma fgets_some fp buf rest :
  fgets LINE_BUF fp = Some (buf, rest) ->
  exists c fp', fp = c :: fp' /\ buf = fgets_buf fp /\ rest = fgets_rest fp.
Proof.
  unfold fgets. destruct fp as [|c fp']; [discriminate|]. intros H.
  assert (fgets_chars (Z.to_nat (LINE_BUF - 1)) (c :: fp') = (buf, rest)) as E
    by congruence.
  exists c, fp'. unfold fgets_buf, fgets_rest. rewrite E. now split.
Qed.

(** The loop only ever appends to the store. *)
Lemma load_loop_prefix cap fp lineno (g : store) :
  exists more, store_of (load_loop cap fp lineno g) = g ++ more.
Proof.
  revert fp lineno g.
  apply (load_loop_induction cap
           (fun fp lineno g r => exists more, store_of r = g ++ more)).
  - intros lineno g. exists []. unfold store_of. simpl. now rewrite app_nil_r.
  - intros c fp lineno g g1 o1 E.
    destruct (load_line_cases cap (lineno + 1) (fgets_buf (c :: fp)) g)
      as [(out & H & _)|[(H & _)|(n & q & p & H & _)]]; rewrite H in E; inversion E; subst.
    exists []. unfold store_of. simpl. now rewrite app_nil_r.
  - intros c fp lineno g g1 o1 r g2 o2 E E2 [more IH]. unfold store_of in *. simpl in *.
    destruct (load_line_cases cap (lineno + 1) (fgets_buf (c :: fp)) g)
      as [(out & H & _)|[(H & _)|(n & q & p & H & _)]]; rewrite H in E; inversion E; subst.
    + now exists more.
    + eexists. now rewrite <- app_assoc.
Qed.

(** The loader of the program against one whose capacity [cap] is never
    reached: it stores the first MAX_ITEMS records the other one stores,
    and when there are more its output ends with the one capacity warning. *)
Lemma load_loop_bounded cap fp lineno (g : store) :
  Z.of_nat (length g) <= MAX_ITEMS -> MAX_ITEMS <= cap ->
  Z.of_nat (length g) + Z.of_nat (length fp) < cap ->
  store_of (load_loop MAX_ITEMS fp lineno g)
    = take (Z.to_nat MAX_ITEMS) (store_of (load_loop cap fp lineno g))
  /\ (MAX_ITEMS < Z.of_nat (length (store_of (load_loop cap fp lineno g))) ->
      exists w, output (load_loop MAX_ITEMS fp lineno g) = w ++ [WARN_capacity] /\ quiet w).
Proof.
  intros L. revert lineno g L.
  induction fp as [fp IH] using (induction_ltof1 _ (@length ascii)).
  unfold ltof in IH. intros lineno g L C B.
  destruct fp as [|c fp].
  { rewrite !load_loop_nil. unfold ret, store_of, output. simpl. split.
    - symmetry. apply take_ge. lia.
    - intros H. lia. }
  pose proof (fgets_rest_shorter c fp) as Sh.
  assert (forall g' out,
    Z.of_nat (length g') <= MAX_ITEMS -> (length g' <= S (length g))%nat -> quiet out ->
    load_line MAX_ITEMS (lineno + 1) (fgets_buf (c :: fp)) g = (Continue, g', out) ->
    load_line cap (lineno + 1) (fgets_buf (c :: fp)) g = (Continue, g', out) ->
    store_of (load_loop MAX_ITEMS (c :: fp) lineno g)
      = take (Z.to_nat MAX_ITEMS) (store_of (load_loop cap (c :: fp) lineno g))
    /\ (MAX_ITEMS < Z.of_nat (length (store_of (load_loop cap (c :: fp) lineno g))) ->
        exists w, output (load_loop MAX_ITEMS (c :: fp) lineno g) = w ++ [WARN_capacity]
                  /\ quiet w)) as Both.
  { intros g' out L' Lg Q H1 H2.
    rewrite (load_loop_continue cap c fp lineno g g' out H2).
    rewrite (load_loop_continue MAX_ITEMS c fp lineno g g' out H1).
    destruct (IH (fgets_rest (c :: fp)) Sh (lineno + 1) g' L' C ltac:(simpl in *; lia))
      as (I1 & I2).
    destruct (load_loop MAX_ITEMS (fgets_rest (c :: fp)) (lineno + 1) g') as [[r1 g1] o1].
    destruct (load_loop cap (fgets_rest (c :: fp)) (lineno + 1) g') as [[r2 g2] o2].
    unfold store_of, output in *. simpl in *. split; [exact I1|].
    intros M. destruct (I2 M) as (w & -> & Qw). exists (out ++ w).
    split; [now rewrite app_assoc | now apply Forall_app]. }
  destruct (Z.ltb_spec (Z.of_nat (length g)) MAX_ITEMS) as [Lt|Ge].
  - (* below capacity: both loaders treat the line alike *)
    pose proof (load_line_cap_indep MAX_ITEMS cap (lineno + 1) (fgets_buf (c :: fp)) g
                  Lt ltac:(lia)) as Same.
    destruct (load_line_cases cap (lineno + 1) (fgets_buf (c :: fp)) g)
      as [(out & H & Q)|[(H & Cap)|(n & q & p & H & _)]].
    + apply (Both g out L ltac:(lia) Q); [now rewrite Same | exact H].
    + exfalso. lia.
    + apply (Both (g ++ [mkItem (strncpy (MAX_NAME_LEN - 1) n) q p]) []);
        [| | constructor | now rewrite Same | exact H];
        rewrite length_app; simpl; lia.
  - (* at capacity *)
    destruct (is_record_line (trim (c_str (fgets_buf (c :: fp))))) eqn:R.
    + pose proof (load_line_at_capacity MAX_ITEMS (lineno + 1) _ g R Ge) as Br.
      rewrite (load_loop_break MAX_ITEMS c fp lineno g g _ Br).
      destruct (load_loop_prefix cap (c :: fp) lineno g) as [more Pre].
      rewrite Pre. unfold store_of, output. simpl. split.
      * rewrite take_app_length'; [reflexivity | lia].
      * intros _. exists []. split; [reflexivity | constructor].
    + apply (Both g [] L ltac:(lia)); [constructor | |]; now apply load_line_not_record.
Qed.

Lemma load_loop_size cap fp lineno (g : store) :
  (length (store_of (load_loop cap fp lineno g)) <= length g + length fp)%nat.
Proof.
  revert fp lineno g.
  apply (load_loop_induction cap
    (fun fp lineno g r => (length (store_of r) <= length g + length fp)%nat)).
  - intros lineno g. unfold store_of. simpl. lia.
  - intros c fp lineno g g1 o1 E.
    destruct (load_line_cases cap (lineno + 1) (fgets_buf (c :: fp)) g)
      as [(out & H & _)|[(H & _)|(n & q & p & H & _)]]; rewrite H in E; inversion E; subst.
    unfold store_of. cbn [fst snd length]. lia.
  - intros c fp lineno g g1 o1 r g2 o2 E E2 IH. unfold store_of in *.
    cbn [fst snd length] in *.
    pose proof (fgets_rest_shorter c fp) as Sh. cbn [length] in Sh.
    destruct (load_line_cases cap (lineno + 1) (fgets_buf (c :: fp)) g)
      as [(out & H & _)|[(H & _)|(n & q & p & H & _)]]; rewrite H in E; inversion E; subst.
    + lia.
    + rewrite length_app in IH. cbn [length] in IH. lia.
Qed.

(** C7 (as amended): for every input file with more valid records than
    the capacity bound (500), Load stores exactly the first 500 valid
    records, prints the capacity warning once, and returns successfully;
    the warning comes with the first non-blank, non-comment line read
    while 500 items are stored, and there the loop ends: the lines after
    it are left unread. *)
Theorem load_stops_at_capacity :
  (forall content (g : store),
      MAX_ITEMS < Z.of_nat (length (valid_records content)) ->
      exists w,
        load_inventory (File content) g =
          (true, take (Z.to_nat MAX_ITEMS) (valid_records content),
           w ++ [WARN_capacity; INFO_loaded MAX_ITEMS])
        /\ Forall (fun m => m <> WARN_capacity) w)
  /\ (forall fp lineno (g : store) buf rest,
      fgets LINE_BUF fp = Some (buf, rest) ->
      is_record_line (trim (c_str buf)) = true ->
      MAX_ITEMS <= Z.of_nat (length g) ->
      load_loop MAX_ITEMS fp lineno g = (rest, g, [WARN_capacity])).
Proof.
  split.
  - intros content g M. unfold valid_records in *.
    pose proof (load_loop_size (Z.of_nat (length content) + 1) content 0 []) as Sz.
    change (length (@nil Item) + length content)%nat with (length content) in Sz.
    destruct (load_loop_bounded (Z.of_nat (length content) + 1) content 0 [])
      as (St & Out); [cbn [length]; unfold MAX_ITEMS; lia | lia | cbn [length]; lia |].
    destruct (Out M) as (w & Ow & Qw). exists w. split; [|exact Qw].
    unfold load_inventory, bind, clear, g_count, print, ret.
    destruct (load_loop MAX_ITEMS content 0 []) as [[r g1] o1].
    unfold store_of, output in St, Ow. cbn [fst snd] in St, Ow. subst g1 o1.
    rewrite <- app_assoc. cbn [app]. f_equal. f_equal. f_equal. f_equal. f_equal.
    rewrite length_take. unfold store_of, MAX_ITEMS in *. lia.
  - intros fp lineno g buf rest F R C.
    destruct (fgets_some fp buf rest F) as (c & fp' & -> & -> & ->).
    apply load_loop_break. now apply load_line_at_capacity.
Qed.

Lemma load_stops_at_capacity_witness :
  (exists w,
      load_inventory (File big_file) [] =
        (true, take (Z.to_nat MAX_ITEMS) (valid_records big_file),
         w ++ [WARN_capacity; INFO_loaded MAX_ITEMS])
      /\ Forall (fun m => m <> WARN_capacity) w)
  /\ load_loop MAX_ITEMS (item_line 3 ++ item_line 4) 501 full_store =
       (item_line 4, full_store, [WARN_capacity]).
Proof.
  split.
  - apply (proj1 load_stops_at_capacity big_file []).
    apply Z.ltb_lt. vm_compute. reflexivity.
  - apply (proj2 load_stops_at_capacity (item_line 3 ++ item_line 4) 501 full_store
             (item_line 3) (item_line 4)).
    + vm_compute. reflexivity.
    + vm_compute. reflexivity.
    + apply Z.leb_le. vm_compute. reflexivity.
Defined.

(** C7 as stated fails: in a file of 502 records the loop ends on the
    501st line, and the 502nd is never read. *)
Lemma load_stops_at_capacity_counterexample :
  length (valid_records big_file) = 502%nat
  /\ result (load_loop MAX_ITEMS big_file 0 []) = item_line 501
  /\ load_inventory (File big_file) [] =
       (true, full_store, [WARN_capacity; INFO_loaded 500]).
Proof.
  split; [vm_compute; reflexivity|].
  split; vm_compute; reflexivity.
Qed.

(** ** Numbers written and read back *)

Lemma dec_value_app acc a b : dec_value acc (a ++ b) = dec_value (dec_value acc a) b.
Proof. revert acc. induction a as [|c a IH]; intros acc; simpl; [reflexivity | apply IH]. Qed.

Lemma uint_chars_digits u : forallb isdigit (uint_chars u) = true.
Proof. induction u; simpl; auto. Qed.

Ltac digit_vals :=
  repeat match goal with
         | |- context [digit_val ?c] =>
             let v := eval vm_compute in (digit_val c) in change (digit_val c) with v
         end.

Lemma of_uint_acc_value u acc :
  Z.pos (Pos.of_uint_acc u acc) = dec_value (Z.pos acc) (uint_chars u).
Proof.
  revert acc. induction u; intros acc; cbn [Pos.of_uint_acc uint_chars dec_value];
    try reflexivity; rewrite IHu; f_equal; digit_vals;
    rewrite ?Pos2Z.inj_add, ?Pos2Z.inj_mul; lia.
Qed.

Lemma of_uint_value u : Z.of_N (N.of_uint u) = dec_value 0 (uint_chars u).
Proof.
  unfold N.of_uint.
  induction u; cbn [Pos.of_uint uint_chars dec_value]; digit_vals;
    try reflexivity; try exact IHu;
    cbn [Z.of_N]; rewrite of_uint_acc_value; reflexivity.
Qed.

Lemma dec_chars_value z : 0 <= z -> dec_value 0 (dec_chars z) = z.
Proof.
  intros H. unfold dec_chars. rewrite <- of_uint_value, DecimalN.Unsigned.of_to. lia.
Qed.

Lemma dec_chars_digits z : forallb isdigit (dec_chars z) = true.
Proof. apply uint_chars_digits. Qed.

Lemma dec_chars_nonempty z : dec_chars z <> [].
Proof.
  unfold dec_chars. intros H.
  pose proof (DecimalN.Unsigned.of_to (Z.to_N z)) as E.
  destruct (Z.to_N z) as [|p] eqn:Ez; [discriminate H|].
  destruct (N.to_uint (N.pos p)); try discriminate H.
  discriminate E.
Qed.

(** Characters of the written numbers. *)
Ltac by_cases_on c := destruct c as [[] [] [] [] [] [] [] []]; vm_compute; try reflexivity;
  try discriminate; auto.

Lemma digit_not_space c : isdigit c = true -> isspace c = false.
Proof. by_cases_on c. Qed.
Lemma digit_not_comma c : isdigit c = true -> is_comma c = false.
Proof. by_cases_on c. Qed.
Lemma digit_not_newline c : isdigit c = true -> is_newline c = false.
Proof. by_cases_on c. Qed.
Lemma digit_not_nul c : isdigit c = true -> is_nul c = false.
Proof. by_cases_on c. Qed.
Lemma digit_not_sign c :
  isdigit c = true -> is_char 45 c = false /\ is_char 43 c = false.
Proof. by_cases_on c. Qed.
Lemma digit_not_letter c x :
  isdigit c = true -> isdigit x = false -> Ascii.eqb (tolower c) x = false.
Proof.
  intros Hc Hx. destruct (Ascii.eqb (tolower c) x) eqn:E; [|reflexivity].
  apply Ascii.eqb_eq in E. subst x. revert Hc Hx. by_cases_on c.
Qed.

Lemma span_all f s : forallb f s = true -> span f s = (s, []).
Proof.
  induction s as [|c s IH]; simpl; [reflexivity|]. intros H.
  apply andb_prop in H as [Hc Hs]. now rewrite Hc, (IH Hs).
Qed.

Lemma span_stop f a c b :
  forallb f a = true -> f c = false -> span f (a ++ c :: b) = (a, c :: b).
Proof.
  intros Ha Hc. induction a as [|x a IH]; simpl in *; [now rewrite Hc|].
  apply andb_prop in Ha as [Hx Ha]. now rewrite Hx, (IH Ha).
Qed.

Lemma dec_chars_cons z : exists d ds, dec_chars z = d :: ds /\ isdigit d = true
                                      /\ forallb isdigit ds = true.
Proof.
  pose proof (dec_chars_digits z) as D. pose proof (dec_chars_nonempty z) as N.
  destruct (dec_chars z) as [|d ds]; [now destruct N|].
  simpl in D. apply andb_prop in D as [Hd Hds]. now exists d, ds.
Qed.

Lemma strtol_dec_chars q :
  0 <= q <= LONG_MAX -> strtol (dec_chars q) = (q, []).
Proof.
  intros B. unfold strtol.
  pose proof (dec_chars_value q ltac:(lia)) as V.
  pose proof (dec_chars_digits q) as D.
  destruct (dec_chars_cons q) as (d & ds & E & Hd & Hds). rewrite E in *.
  simpl skip_space. rewrite (digit_not_space d Hd).
  unfold read_sign. destruct (digit_not_sign d Hd) as [-> ->].
  rewrite (span_all isdigit (d :: ds) D). rewrite V.
  f_equal. unfold LONG_MIN, LONG_MAX in *. lia.
Qed.

Lemma dec_chars_digit k :
  0 <= k <= 9 -> exists c, dec_chars k = [c] /\ isdigit c = true /\ digit_val c = k.
Proof.
  intros B.
  assert (k = 0 \/ k = 1 \/ k = 2 \/ k = 3 \/ k = 4 \/ k = 5 \/ k = 6 \/ k = 7
          \/ k = 8 \/ k = 9) as C by lia.
  repeat (destruct C as [-> | C]; [eexists; repeat split; reflexivity|]).
  subst k. eexists; repeat split; reflexivity.
Qed.

Lemma strtod_two_dp neg n :
  0 <= n -> strtod (two_dp neg n) = (round_scaled neg n 10 (-2), []).
Proof.
  intros Hn. unfold two_dp.
  destruct (dec_chars_cons (n / 100)) as (d & ds & E & Hd & Hds).
  destruct (dec_chars_digit (n mod 100 / 10)) as (c1 & E1 & H1 & V1);
    [Z.to_euclidean_division_equations; lia|].
  destruct (dec_chars_digit (n mod 10)) as (c2 & E2 & H2 & V2);
    [Z.to_euclidean_division_equations; lia|].
  pose proof (dec_chars_value (n / 100) ltac:(apply Z.div_pos; lia)) as V.
  rewrite E in *. rewrite E1, E2.
  assert (strtod ((if neg then ["-"%char] else []) ++ (d :: ds) ++ ["."%char] ++ [c1] ++ [c2])
          = strtod ((if neg then ["-"%char] else []) ++ d :: ds ++ "."%char :: [c1; c2]))
    as -> by reflexivity.
  unfold strtod.
  assert (read_sign (skip_space ((if neg then ["-"%char] else [])
                                   ++ d :: ds ++ "."%char :: [c1; c2]))
          = (neg, d :: ds ++ "."%char :: [c1; c2])) as ->.
  { destruct neg; cbn [app skip_space].
    - change (isspace "-") with false. cbv iota. unfold read_sign.
      change (is_char 45 "-") with true. reflexivity.
    - rewrite (digit_not_space d Hd). unfold read_sign.
      destruct (digit_not_sign d Hd) as [-> ->]. reflexivity. }
  cbn [starts_with str list_ascii_of_string].
  rewrite !(digit_not_letter d _ Hd) by reflexivity.
  assert (read_mantissa isdigit (d :: ds ++ ["."%char; c1; c2])
          = Some (d :: ds, [c1; c2], [])) as ->.
  { unfold read_mantissa.
    assert (forallb isdigit (d :: ds) = true) as Dd by (simpl; now rewrite Hd, Hds).
    change (d :: ds ++ ["."%char; c1; c2]) with ((d :: ds) ++ "."%char :: [c1; c2]).
    rewrite (span_stop isdigit (d :: ds) "."%char [c1; c2] Dd eq_refl).
    change (is_char 46 ".") with true. cbv iota.
    rewrite (span_all isdigit [c1; c2]) by (simpl; now rewrite H1, H2).
    reflexivity. }
  assert ((let '(e, rest) := read_exponent 101 [] in
           (round_scaled neg (dec_value 0 ((d :: ds) ++ [c1; c2])) 10
              (e - Z.of_nat (length [c1; c2])), rest))
          = (round_scaled neg n 10 (-2), [])) as Fin.
  { cbn [read_exponent length]. f_equal. f_equal.
    rewrite dec_value_app, V. cbn [dec_value]. rewrite V1, V2.
    Z.to_euclidean_division_equations; lia. }
  destruct (Ascii.eqb (tolower d) "0"); [|exact Fin].
  destruct ds as [|e ds']; cbn [app].
  - change (Ascii.eqb (tolower ".") "x") with false. exact Fin.
  - cbn [forallb] in Hds. apply andb_prop in Hds as [He _].
    rewrite (digit_not_letter e "x" He) by reflexivity. exact Fin.
Qed.

Lemma cents_nonneg m e : 0 <= cents (Z.pos m) e.
Proof.
  unfold cents. destruct (0 <=? e) eqn:E.
  - apply Z.leb_le in E. pose proof (Z.pow_nonneg 2 e ltac:(lia)). nia.
  - assert (0 < 2 ^ (- e)) as P by (apply Z.pow_pos_nonneg; lia).
    pose proof (Z.div_pos (Z.pos m * 100) (2 ^ (- e)) ltac:(lia) P).
    destruct (_ <? _); [lia|]. destruct (_ <? _); [lia|]. destruct (Z.even _); lia.
Qed.

Lemma fmt_2f_two_dp p :
  match Prim2SF p with
  | S754_zero s => fmt_2f p = two_dp s 0
  | S754_finite s m e => fmt_2f p = two_dp s (cents (Z.pos m) e)
  | _ => True
  end.
Proof.
  unfold fmt_2f. destruct (Prim2SF p) as [[]|[]| |s m e]; try exact I; reflexivity.
Qed.

(** What [strtod] reads from a price written with [%.2f]. *)
Lemma strtod_fmt_2f p : strtod (fmt_2f p) = (round_2dp p, []).
Proof.
  pose proof (fmt_2f_two_dp p) as H. unfold round_2dp.
  destruct (Prim2SF p) as [s|s| |s m e] eqn:E.
  - rewrite H. apply strtod_two_dp. lia.
  - unfold fmt_2f. rewrite E. destruct s; vm_compute; reflexivity.
  - unfold fmt_2f. rewrite E. vm_compute. reflexivity.
  - rewrite H. apply strtod_two_dp, cents_nonneg.
Qed.

Lemma digit_plain c : isdigit c = true -> plain c = true.
Proof. by_cases_on c. Qed.

Lemma digits_plain s : forallb isdigit s = true -> forallb plain s = true.
Proof.
  induction s as [|c s IH]; simpl; [reflexivity|]. intros H.
  apply andb_prop in H as [Hc Hs]. now rewrite (digit_plain c Hc), (IH Hs).
Qed.

Lemma dec_chars_plain z : forallb plain (dec_chars z) = true.
Proof. apply digits_plain, dec_chars_digits. Qed.

Lemma fmt_2f_plain p : forallb plain (fmt_2f p) = true /\ fmt_2f p <> [].
Proof.
  unfold fmt_2f. destruct (Prim2SF p) as [[]|[]| |s m e]; try (split; [reflexivity | discriminate]).
  split.
  - rewrite !forallb_app. rewrite !dec_chars_plain.
    destruct s; reflexivity.
  - destruct s; [discriminate|]. simpl.
    destruct (dec_chars_cons (cents (Z.pos m) e / 100)) as (d & ds & -> & _). discriminate.
Qed.

Lemma plain_inner c : plain c = true -> inner c = true.
Proof. by_cases_on c. Qed.

Lemma inner_not_space c : inner c = true -> isspace c = false.
Proof. by_cases_on c. Qed.

Lemma inner_not_newline c : inner c = true -> is_newline c = false.
Proof. by_cases_on c. Qed.

Lemma inner_not_nul c : inner c = true -> is_nul c = false.
Proof. by_cases_on c. Qed.

Lemma forallb_impl (f h : ascii -> bool) s :
  (forall c, f c = true -> h c = true) -> forallb f s = true -> forallb h s = true.
Proof.
  intros I. induction s as [|c s IH]; simpl; [reflexivity|]. intros H.
  apply andb_prop in H as [Hc Hs]. now rewrite (I c Hc), (IH Hs).
Qed.

(** Trimming and text without white space at its ends. *)
Lemma drop_trailing_inner y : forallb inner y = true -> drop_trailing_space y = y.
Proof.
  induction y as [|c y IH]; simpl; [reflexivity|]. intros H.
  apply andb_prop in H as [Hc Hy]. rewrite (IH Hy), (inner_not_space c Hc).
  now destruct y.
Qed.

Lemma drop_trailing_app_inner x y :
  forallb inner y = true -> y <> [] -> drop_trailing_space (x ++ y) = x ++ y.
Proof.
  intros Hy Ny. induction x as [|c x IH]; simpl; [now apply drop_trailing_inner|].
  rewrite IH. destruct (x ++ y) eqn:E; [|reflexivity].
  apply app_eq_nil in E as [_ E]. now destruct Ny.
Qed.

Lemma drop_trailing_app_space x c :
  isspace c = true -> drop_trailing_space (x ++ [c]) = drop_trailing_space x.
Proof.
  intros Hc. induction x as [|a x IH]; simpl; [now rewrite Hc|]. now rewrite IH.
Qed.

Lemma skip_space_shorter s : (length (skip_space s) <= length s)%nat.
Proof. induction s as [|c s IH]; simpl; [lia|]. destruct (isspace c); simpl; lia. Qed.

Lemma drop_trailing_shorter s : (length (drop_trailing_space s) <= length s)%nat.
Proof.
  induction s as [|c s IH]; simpl; [lia|].
  destruct (drop_trailing_space s); [destruct (isspace c)|]; simpl in *; lia.
Qed.

Lemma trimmed_head c s : trim (c :: s) = c :: s -> isspace c = false.
Proof.
  unfold trim. simpl. destruct (isspace c); [|reflexivity]. intros H.
  apply (f_equal (@length ascii)) in H. simpl in H.
  pose proof (drop_trailing_shorter (skip_space s)). pose proof (skip_space_shorter s). lia.
Qed.

Lemma trim_inner s : forallb inner s = true -> trim s = s.
Proof.
  intros H. unfold trim. destruct s as [|c s]; [reflexivity|].
  simpl in H. apply andb_prop in H as [Hc Hs].
  simpl skip_space. rewrite (inner_not_space c Hc).
  apply drop_trailing_inner. simpl. now rewrite Hc, Hs.
Qed.

Lemma trim_plain s : forallb plain s = true -> trim s = s.
Proof. intros H. apply trim_inner, (forallb_impl plain inner s plain_inner H). Qed.

(** A trimmed name followed by text without white space and the end of
    the line: the line trims to the text before the newline. *)
Lemma trim_line n tail :
  n <> [] -> trim n = n -> forallb inner tail = true -> tail <> [] ->
  trim (n ++ tail ++ [newline]) = n ++ tail.
Proof.
  intros Nn Tn Pt Nt. destruct n as [|c n]; [now destruct Nn|].
  unfold trim. cbn [app skip_space]. rewrite (trimmed_head c n Tn).
  change (c :: n ++ tail ++ [newline]) with ((c :: n) ++ tail ++ [newline]).
  rewrite app_assoc. rewrite drop_trailing_app_space by reflexivity.
  now apply drop_trailing_app_inner.
Qed.

(** One [fgets] on a stream that starts with a line of at most [room]
    characters returns that line. *)
Lemma fgets_chars_line room body rest :
  forallb (fun c => negb (is_newline c)) body = true ->
  (length body < room)%nat ->
  fgets_chars room (body ++ newline :: rest) = (body ++ [newline], rest).
Proof.
  revert room. induction body as [|c body IH]; intros room Hb L; simpl in *.
  - destruct room; [lia|]. reflexivity.
  - destruct room as [|room]; [lia|]. apply andb_prop in Hb as [Hc Hb].
    apply negb_true_iff in Hc. cbn [fgets_chars]. rewrite Hc.
    rewrite (IH room Hb ltac:(lia)). reflexivity.
Qed.

Lemma fgets_line body rest :
  forallb (fun c => negb (is_newline c)) body = true ->
  Z.of_nat (length (body ++ [newline])) < LINE_BUF ->
  fgets_buf (body ++ newline :: rest) = body ++ [newline]
  /\ fgets_rest (body ++ newline :: rest) = rest.
Proof.
  intros Hb L. unfold fgets_buf, fgets_rest. rewrite length_app in L. simpl in L.
  rewrite fgets_chars_line; [now split | exact Hb | unfold LINE_BUF in *; lia].
Qed.

Lemma fields_one a :
  forallb (fun c => negb (is_comma c)) a = true -> fields a = [a].
Proof.
  induction a as [|c a IH]; simpl; [reflexivity|]. intros H.
  apply andb_prop in H as [Hc Ha]. apply negb_true_iff in Hc. now rewrite Hc, (IH Ha).
Qed.

Lemma fields_app a s :
  forallb (fun c => negb (is_comma c)) a = true ->
  fields (a ++ ","%char :: s) = a :: fields s.
Proof.
  induction a as [|c a IH]; simpl; [reflexivity|]. intros H.
  apply andb_prop in H as [Hc Ha]. apply negb_true_iff in Hc. now rewrite Hc, (IH Ha).
Qed.

Lemma plain_no_comma s :
  forallb plain s = true -> forallb (fun c => negb (is_comma c)) s = true.
Proof.
  induction s as [|c s IH]; simpl; [reflexivity|]. intros H.
  apply andb_prop in H as [Hc Hs]. rewrite (IH Hs), andb_true_r. revert Hc. by_cases_on c.
Qed.

Lemma plain_no_newline s :
  forallb plain s = true -> forallb (fun c => negb (is_newline c)) s = true.
Proof.
  induction s as [|c s IH]; simpl; [reflexivity|]. intros H.
  apply andb_prop in H as [Hc Hs]. rewrite (IH Hs), andb_true_r. revert Hc. by_cases_on c.
Qed.

Lemma plain_nul_free s : forallb plain s = true -> nul_free s.
Proof.
  induction s as [|c s IH]; simpl; [constructor|]. intros H.
  apply andb_prop in H as [Hc Hs]. constructor; [|now apply IH]. revert Hc. by_cases_on c.
Qed.

Lemma record_fields n q p :
  forallb (fun c => negb (is_comma c)) n = true -> n <> [] ->
  forallb plain q = true -> q <> [] -> forallb plain p = true -> p <> [] ->
  nonempty_fields (n ++ ","%char :: q ++ ","%char :: p) = [n; q; p].
Proof.
  intros Hn Nn Hq Nq Hp Np. unfold nonempty_fields.
  rewrite (fields_app n _ Hn), (fields_app q _ (plain_no_comma q Hq)),
    (fields_one p (plain_no_comma p Hp)).
  destruct n; [now destruct Nn|]. destruct q; [now destruct Nq|].
  destruct p; [now destruct Np|]. reflexivity.
Qed.

(** ** Save, then load *)

Lemma fmt_item_shape it :
  c_str (name it) = name it -> 0 <= quantity it ->
  fmt_item it = name it ++ line_tail it ++ [newline].
Proof.
  intros Cn Q. unfold fmt_item, line_tail, fmt_d. rewrite Cn.
  destruct (Z.ltb_spec (quantity it) 0); [lia|].
  cbn [app]. rewrite <- !app_assoc. reflexivity.
Qed.

Lemma line_tail_inner it : forallb inner (line_tail it) = true.
Proof.
  unfold line_tail. cbn [forallb]. rewrite forallb_app. cbn [forallb].
  rewrite (forallb_impl plain inner _ plain_inner (dec_chars_plain _)).
  rewrite (forallb_impl plain inner _ plain_inner (proj1 (fmt_2f_plain _))).
  reflexivity.
Qed.

Lemma forallb_and (f h : ascii -> bool) s :
  forallb (fun c => negb (f c || h c)) s = true ->
  forallb (fun c => negb (f c)) s = true /\ forallb (fun c => negb (h c)) s = true.
Proof.
  induction s as [|c s IH]; simpl; [now split|]. intros H.
  apply andb_prop in H as [Hc Hs]. destruct (IH Hs) as [-> ->].
  apply negb_true_iff, orb_false_iff in Hc as [-> ->]. now split.
Qed.

(** The loader on the line Save wrote for an item the store does not
    hold yet. *)
Lemma load_saved_line it rest lineno (g : store) :
  saves it -> valid_name (name it) = true -> c_str (name it) = name it ->
  find_from 0 g (name it) < 0 -> Z.of_nat (length g) < MAX_ITEMS ->
  fgets_buf (fmt_item it ++ rest) = fmt_item it
  /\ fgets_rest (fmt_item it ++ rest) = rest
  /\ load_line MAX_ITEMS lineno (fmt_item it) g = (Continue, g ++ [reread it], []).
Proof.
  intros (Hn & Tn & Rn & Q & P0 & P9 & Fit) V Cn F L.
  destruct (forallb_and _ _ _ Hn) as [NoComma NoNl].
  assert (name it <> []) as Nn by (intros E; rewrite E in Rn; discriminate).
  pose proof (fmt_item_shape it Cn ltac:(lia)) as Shape.
  pose proof (line_tail_inner it) as Ti.
  assert (line_tail it <> []) as Nt by discriminate.
  assert (forallb (fun c => negb (is_newline c)) (name it ++ line_tail it) = true) as Nl.
  { rewrite forallb_app, NoNl. simpl.
    apply (forallb_impl inner); [|exact Ti].
    intros c Hc. now rewrite (inner_not_newline c Hc). }
  assert (fmt_item it ++ rest = (name it ++ line_tail it) ++ newline :: rest) as Split.
  { rewrite Shape. rewrite <- !app_assoc. reflexivity. }
  assert (fmt_item it = (name it ++ line_tail it) ++ [newline]) as Shape'.
  { rewrite Shape. now rewrite <- app_assoc. }
  destruct (fgets_line (name it ++ line_tail it) rest Nl) as [B R];
    [now rewrite <- Shape'|].
  rewrite Split, B, R, <- Shape'. split; [reflexivity|]. split; [reflexivity|].
  assert (nul_free (fmt_item it)) as Nf.
  { rewrite Shape. unfold nul_free. rewrite !Forall_app. split; [|split].
    - rewrite <- Cn. apply c_str_nul_free.
    - apply Forall_forall. intros c Hc. apply inner_not_nul.
      rewrite forallb_forall in Ti. apply Ti. now apply list_elem_of_In.
    - repeat constructor. }
  assert (trim (c_str (fmt_item it)) = name it ++ line_tail it) as Tr.
  { rewrite (c_str_id _ Nf), Shape. now apply trim_line. }
  assert (strncpy (MAX_NAME_LEN - 1) (name it) = name it) as Sn
    by (rewrite strncpy_valid by exact V; exact Cn).
  unfold reread.
  replace (mkItem (name it) (quantity it) (round_2dp (price it)))
    with (mkItem (strncpy (MAX_NAME_LEN - 1) (trim (name it))) (quantity it)
            (round_2dp (price it))) by (now rewrite Tn, Sn).
  apply (load_line_accept MAX_ITEMS lineno (fmt_item it) g
           (name it) (dec_chars (quantity it)) (fmt_2f (price it)) []
           (quantity it) (round_2dp (price it)) [] []).
  - exact Fit.
  - rewrite Tr. destruct (name it); [now destruct Nn | exact Rn].
  - exact L.
  - rewrite Tr. unfold line_tail.
    apply record_fields; auto using dec_chars_plain, dec_chars_nonempty;
      apply fmt_2f_plain.
  - now rewrite Tn.
  - rewrite (trim_plain _ (dec_chars_plain _)). apply strtol_dec_chars.
    unfold LONG_MAX. lia.
  - reflexivity.
  - exact Q.
  - rewrite (trim_plain _ (proj1 (fmt_2f_plain _))). apply strtod_fmt_2f.
  - reflexivity.
  - exact P0.
  - exact P9.
  - now rewrite Tn.
Qed.

Lemma save_loop_spec k i written (g : store) :
  (i + k)%nat = length g ->
  save_loop k (Z.of_nat i) written g
    = (written ++ concat (map fmt_item (drop i g)), g, []).
Proof.
  revert i written. induction k as [|k IH]; intros i written L; cbn [save_loop].
  - unfold ret. rewrite drop_ge by lia. simpl. now rewrite app_nil_r.
  - unfold bind, read. rewrite Nat2Z.id.
    destruct (lookup_lt_is_Some_2 g i ltac:(lia)) as [it Hit].
    rewrite (nth_lookup_Some _ _ _ _ Hit).
    replace (Z.of_nat i + 1) with (Z.of_nat (S i)) by lia.
    rewrite (IH (S i)) by lia. rewrite (drop_S g it i Hit).
    simpl. now rewrite <- app_assoc.
Qed.

Lemma save_inventory_writes f (g : store) :
  f <> NoAccess ->
  save_inventory f g
    = ((true, File (header ++ concat (map fmt_item g))), g,
       [INFO_saved (Z.of_nat (length g))]).
Proof.
  intros A.
  assert ((cnt <- g_count ;;
           written <- save_loop (Z.to_nat cnt) 0 header ;;
           print (INFO_saved cnt) ;; ret (true, File written)) g
          = ((true, File (header ++ concat (map fmt_item g))), g,
             [INFO_saved (Z.of_nat (length g))])) as E.
  { unfold bind at 1, g_count. rewrite Nat2Z.id.
    unfold bind at 1. change 0 with (Z.of_nat 0).
    rewrite (save_loop_spec (length g) 0 header g) by lia.
    reflexivity. }
  destruct f; [exact E | exact E | now destruct A].
Qed.

Lemma load_loop_next cap fp lineno (g g1 : store) o1 :
  fp <> [] ->
  load_line cap (lineno + 1) (fgets_buf fp) g = (Continue, g1, o1) ->
  load_loop cap fp lineno g =
    let '(r, g2, o2) := load_loop cap (fgets_rest fp) (lineno + 1) g1 in
    (r, g2, o1 ++ o2).
Proof. destruct fp as [|c fp]; [now intros []|]. intros _. apply load_loop_continue. Qed.

Lemma fmt_item_nonempty it rest : fmt_item it ++ rest <> [].
Proof.
  unfold fmt_item. intros H. apply app_eq_nil in H as [H _].
  repeat (apply app_eq_nil in H as [_ H]). discriminate.
Qed.

(** The loop on the lines Save wrote for [items], the store holding what
    was read for the items [pre] before them. *)
Lemma load_saved_items items pre lineno :
  store_ok (pre ++ items) -> Forall saves items ->
  load_loop MAX_ITEMS (concat (map fmt_item items)) lineno (map reread pre)
    = ([], map reread (pre ++ items), []).
Proof.
  revert pre lineno. induction items as [|it items IH]; intros pre lineno Ok Sv.
  - simpl. rewrite load_loop_nil, app_nil_r. reflexivity.
  - pose proof Ok as Inv.
    destruct Ok as (U & V & L). inversion Sv as [|? ? Sit Sitems]; subst.
    rewrite Forall_app in V. destruct V as [Vpre V].
    inversion V as [|? ? [Vn Cn] Vitems]; subst.
    rewrite length_app in L. cbn [length] in L.
    assert (find_from 0 (map reread pre) (name it) < 0) as F.
    { rewrite find_from_absent; [lia|]. apply Forall_map, Forall_lookup.
      intros i d Hd. simpl. destruct (same_name (name d) (name it)) eqn:E; [|reflexivity].
      assert (i = length pre); [|apply lookup_lt_Some in Hd; lia].
      apply (U i (length pre) d it).
      - now apply lookup_app_l_Some.
      - rewrite lookup_app_r by lia. now rewrite Nat.sub_diag.
      - exact E. }
    cbn [map concat].
    destruct (load_saved_line it (concat (map fmt_item items)) (lineno + 1) (map reread pre)
                Sit Vn Cn F ltac:(rewrite length_map; lia)) as (B & R & Ln).
    rewrite (load_loop_next MAX_ITEMS _ lineno (map reread pre)
               (map reread pre ++ [reread it]) []).
    + rewrite R.
      replace (map reread pre ++ [reread it]) with (map reread (pre ++ [it]))
        by (now rewrite map_app).
      rewrite IH.
      * rewrite <- app_assoc. reflexivity.
      * rewrite <- app_assoc. exact Inv.
      * exact Sitems.
    + apply fmt_item_nonempty.
    + now rewrite B.
Qed.

Lemma load_header rest lineno (g : store) :
  load_loop MAX_ITEMS (header ++ rest) lineno g = load_loop MAX_ITEMS rest (lineno + 1) g.
Proof.
  assert (header ++ rest = header_text ++ newline :: rest) as E
    by (unfold header, header_text; rewrite <- !app_assoc; reflexivity).
  destruct (fgets_line header_text rest) as [B R];
    [vm_compute; reflexivity | vm_compute; reflexivity |].
  rewrite (load_loop_next MAX_ITEMS (header ++ rest) lineno g g []).
  - rewrite E, R. now destruct (load_loop MAX_ITEMS rest (lineno + 1) g) as [[r g2] o2].
  - rewrite E. now destruct header_text.
  - rewrite E, B. apply load_line_not_record. vm_compute. reflexivity.
Qed.

(** C5 (as amended): for every store state whose items all have a name
    without comma or line break, without white space at its ends and not
    starting with '#', a quantity in [0, 1_000_000], a price whose
    two-decimal rounding lies in [0, 1e9] and a line that fits the line
    buffer, Save to a destination that can be written followed by Load
    from it reproduces the items in the same order, with the same names
    and quantities and the prices rounded to two decimals. *)
Theorem save_load_round_trip (g : store) f :
  reachable g -> f <> NoAccess -> Forall saves g ->
  (r <- save_inventory f ;; load_inventory (snd r)) g =
    (true, map reread g,
     [INFO_saved (Z.of_nat (length g)); INFO_loaded (Z.of_nat (length g))]).
Proof.
  intros R A Sv. unfold bind at 1. rewrite (save_inventory_writes f g A).
  cbn [snd]. unfold load_inventory, bind, clear, g_count, print, ret.
  rewrite load_header.
  pose proof (load_saved_items g [] (0 + 1) (reachable_ok g R) Sv) as LS.
  cbn [map app] in LS. rewrite LS.
  cbn [app]. now rewrite length_map.
Qed.

Lemma save_load_round_trip_witness :
  (r <- save_inventory NoFile ;; load_inventory (snd r)) sample_store =
    (true,
     [mkItem (str "Green Apple") 100 0.99%float; mkItem (str "pear") 0 2.56%float],
     [INFO_saved 2; INFO_loaded 2]).
Proof.
  apply (save_load_round_trip sample_store NoFile).
  - exact (run_reachable [Add (str "Green Apple") 100 0.99%float;
                          Add (str "pear") 7 2.555%float;
                          SetQuantity (str "PEAR") 0] [] reach_empty).
  - discriminate.
  - repeat constructor; try (vm_compute; reflexivity); vm_compute; discriminate.
Defined.

(** C5 as stated fails on a name with a comma: the line Save writes for
    it is refused by Load, the item is lost. *)
Lemma save_load_counterexample :
  run [Add (str "a,b") 1 1%float] [] = [mkItem (str "a,b") 1 1%float]
  /\ (r <- save_inventory NoFile ;; load_inventory (snd r)) [mkItem (str "a,b") 1 1%float] =
       (true, [], [INFO_saved 1; WARN_quantity 2 (str "b"); INFO_loaded 0]).
Proof. split; vm_compute; reflexivity. Qed.

(** * Lines of the file *)

Lemma fgets_chars_eof room body :
  forallb (fun c => negb (is_newline c)) body = true ->
  (length body <= room)%nat ->
  fgets_chars room body = (body, []).
Proof.
  revert room. induction body as [|c body IH]; intros room Hb L.
  - now destruct room.
  - destruct room as [|room]; [simpl in L; lia|].
    simpl in Hb. apply andb_prop in Hb as [Hc Hb]. apply negb_true_iff in Hc.
    cbn [fgets_chars]. rewrite Hc. rewrite (IH room Hb); [reflexivity | simpl in L; lia].
Qed.

Lemma c_str_snoc s c : c_str (s ++ [c]) = c_str s \/ c_str (s ++ [c]) = c_str s ++ [c].
Proof.
  induction s as [|a s IH]; simpl.
  - destruct (is_nul c); [now left | now right].
  - destruct (is_nul a); [now left|]. destruct IH as [-> | ->]; [now left | now right].
Qed.

Lemma skip_space_snoc s c :
  isspace c = true ->
  skip_space (s ++ [c]) = skip_space s ++ [c]
  \/ skip_space s = [] /\ skip_space (s ++ [c]) = [].
Proof.
  intros Hc. induction s as [|a s IH]; simpl.
  - rewrite Hc. now right.
  - destruct (isspace a); [exact IH | now left].
Qed.

Lemma trim_app_space s c : isspace c = true -> trim (s ++ [c]) = trim s.
Proof.
  intros Hc. unfold trim. destruct (skip_space_snoc s c Hc) as [-> | [-> ->]].
  - now apply drop_trailing_app_space.
  - reflexivity.
Qed.

(** A line that fits the buffer is what one [fgets] returns, up to the
    line break that [trim] removes. *)
Lemma first_line_fgets fp line rest :
  first_line fp line rest ->
  fp <> []
  /\ fgets_rest fp = rest
  /\ trim (c_str (fgets_buf fp)) = trim (c_str line).
Proof.
  intros (Hb & L & [-> | (Ne & -> & ->)]).
  - destruct (fgets_line line rest Hb) as [B R].
    { rewrite length_app. simpl. unfold LINE_BUF in *. lia. }
    split; [now destruct line|]. split; [exact R|]. rewrite B.
    destruct (c_str_snoc line newline) as [-> | ->]; [reflexivity|].
    now apply trim_app_space.
  - split; [exact Ne|]. unfold fgets_rest, fgets_buf.
    rewrite (fgets_chars_eof _ line Hb) by (unfold LINE_BUF in *; lia).
    now split.
Qed.

(** C6 (as amended): during Load, while the store is below capacity, of
    every line that fits the line buffer (at most 254 characters before
    its line break): a non-blank, non-comment line with fewer than three
    non-empty comma-separated fields is skipped with the malformed-record
    warning, contributes no item, and loading continues with the next
    line; conversely every line either leaves the store as it is or adds
    one item, and a line that adds an item has at least three non-empty
    fields, the item being read from the first three of them (empty
    fields and fields after the third are passed over); loading continues
    with the next line in both cases. *)
Theorem malformed_lines_skipped :
  (forall fp line rest lineno (g : store),
      first_line fp line rest ->
      is_record_line (trim (c_str line)) = true ->
      Z.of_nat (length g) < MAX_ITEMS ->
      (length (nonempty_fields (trim (c_str line))) < 3)%nat ->
      load_loop MAX_ITEMS fp lineno g =
        (print (WARN_malformed (lineno + 1) (trim (c_str line))) ;;
         load_loop MAX_ITEMS rest (lineno + 1)) g)
  /\ (forall fp line rest lineno (g : store),
      first_line fp line rest ->
      Z.of_nat (length g) < MAX_ITEMS ->
      exists (g1 : store) (o1 : list msg),
        load_loop MAX_ITEMS fp lineno g =
          (let '(r, g2, o2) := load_loop MAX_ITEMS rest (lineno + 1) g1 in
           (r, g2, o1 ++ o2))
        /\ (g1 = g
            \/ exists (f1 f2 f3 : cstring) (more : list cstring),
                 nonempty_fields (trim (c_str line)) = f1 :: f2 :: f3 :: more
                 /\ g1 = g ++ [mkItem (trim f1) (fst (strtol (trim f2)))
                                 (fst (strtod (trim f3)))])).
Proof.
  split.
  - intros fp line rest lineno g FL R C N.
    destruct (first_line_fgets fp line rest FL) as (Ne & Hr & T).
    rewrite <- T in *.
    rewrite (load_loop_next MAX_ITEMS fp lineno g g
               [WARN_malformed (lineno + 1) (trim (c_str (fgets_buf fp)))] Ne).
    + rewrite Hr. unfold bind, print. reflexivity.
    + apply load_line_malformed; auto. apply fgets_buf_length.
  - intros fp line rest lineno g FL C.
    destruct (first_line_fgets fp line rest FL) as (Ne & Hr & T).
    rewrite <- T.
    destruct (load_line_cases MAX_ITEMS (lineno + 1) (fgets_buf fp) g)
      as [(out & E & _) | [(_ & B) | (n & q & p & E & _)]].
    + exists g, out. split; [|now left].
      rewrite (load_loop_next MAX_ITEMS fp lineno g g out Ne E). now rewrite Hr.
    + lia.
    + exists (g ++ [mkItem (strncpy (MAX_NAME_LEN - 1) n) q p]), [].
      split; [rewrite (load_loop_next MAX_ITEMS fp lineno g _ [] Ne E); now rewrite Hr|].
      right.
      destruct (load_line_accept_inv MAX_ITEMS (lineno + 1) (fgets_buf fp) g
                  (mkItem (strncpy (MAX_NAME_LEN - 1) n) q p) (fgets_buf_length fp))
        as (f1 & f2 & f3 & more & _ & N & I & _).
      { now rewrite E. }
      exists f1, f2, f3, more. split; [exact N | now rewrite I].
Qed.

Lemma malformed_lines_skipped_witness :
  load_loop MAX_ITEMS (str "pear,7" ++ [newline] ++ str "fig,,2,0.5,x") 0 [] =
    (print (WARN_malformed (0 + 1) (trim (c_str (str "pear,7")))) ;;
     load_loop MAX_ITEMS (str "fig,,2,0.5,x") (0 + 1)) []
  /\ exists (g1 : store) (o1 : list msg),
       load_loop MAX_ITEMS (str "fig,,2,0.5,x") 1 [] =
         (let '(r, g2, o2) := load_loop MAX_ITEMS [] (1 + 1) g1 in (r, g2, o1 ++ o2))
       /\ (g1 = []
           \/ exists (f1 f2 f3 : cstring) (more : list cstring),
                nonempty_fields (trim (c_str (str "fig,,2,0.5,x"))) = f1 :: f2 :: f3 :: more
                /\ g1 = [] ++ [mkItem (trim f1) (fst (strtol (trim f2)))
                                  (fst (strtod (trim f3)))]).
Proof.
  split.
  - apply (proj1 malformed_lines_skipped
             (str "pear,7" ++ [newline] ++ str "fig,,2,0.5,x") (str "pear,7")
             (str "fig,,2,0.5,x") 0 []).
    + split; [vm_compute; reflexivity|]. split; [vm_compute; reflexivity|]. left. reflexivity.
    + vm_compute. reflexivity.
    + vm_compute. reflexivity.
    + vm_compute. lia.
  - apply (proj2 malformed_lines_skipped (str "fig,,2,0.5,x") (str "fig,,2,0.5,x") [] 1 []).
    + split; [vm_compute; reflexivity|]. split; [vm_compute; reflexivity|].
      right. split; [discriminate|]. split; reflexivity.
    + vm_compute. reflexivity.
Defined.

(** C6 as stated fails on a line of four fields: it is loaded, without
    a warning, from its first three fields. *)
Lemma malformed_lines_counterexample :
  length (fields (str "a,1,2,3")) = 4%nat
  /\ load_inventory (File (str "a,1,2,3" ++ [newline])) [] =
       (true, [mkItem (str "a") 1 2%float], [INFO_loaded 1]).
Proof. split; vm_compute; reflexivity. Qed.

(** * Further properties of the record store *)

(** X1: a valid Add of a name no item matches, on a store below
    capacity, succeeds and appends one item with that name, quantity and
    price; the items already stored keep their places. *)
Theorem add_appends_new_item (g : store) n q p :
  valid_name n = true -> 0 < q -> PrimFloat.ltb p 0%float = false ->
  Forall (fun it => same_name (name it) n = false) g ->
  Z.of_nat (length g) < MAX_ITEMS ->
  add_item n q p g = (true, g ++ [mkItem (c_str n) q p], [OK_added n q p])
  /\ find_from 0 (g ++ [mkItem (c_str n) q p]) n = Z.of_nat (length g).
Proof.
  intros V Q P Miss L. split.
  - rewrite (add_item_new g n q p V Q P (find_from_absent 0 g n Miss) L).
    now rewrite (strncpy_valid n V).
  - rewrite (find_from_first 0 _ n (length g) (mkItem (c_str n) q p)); [lia | | |].
    + rewrite lookup_app_r by lia. now rewrite Nat.sub_diag.
    + apply same_name_c_str.
    + intros j it' Hj Hit'. rewrite lookup_app_l in Hit' by lia.
      apply (proj1 (Forall_lookup _ _) Miss j it' Hit').
Qed.

Lemma add_appends_new_item_witness :
  add_item (str "kiwi") 4 0.5%float abcd =
    (true, abcd ++ [mkItem (str "kiwi") 4 0.5%float], [OK_added (str "kiwi") 4 0.5%float])
  /\ find_from 0 (abcd ++ [mkItem (str "kiwi") 4 0.5%float]) (str "kiwi") = 4.
Proof.
  apply (add_appends_new_item abcd (str "kiwi") 4 0.5%float).
  - reflexivity.
  - lia.
  - reflexivity.
  - repeat constructor.
  - vm_compute. reflexivity.
Defined.

(** X2: on a store that holds 500 items, a valid Add of a name no item
    matches fails with CapacityExceeded and changes nothing. *)
Theorem add_to_full_store_refused (g : store) n q p :
  valid_name n = true -> 0 < q -> PrimFloat.ltb p 0%float = false ->
  Forall (fun it => same_name (name it) n = false) g ->
  MAX_ITEMS <= Z.of_nat (length g) ->
  add_item n q p g = (false, g, [ERROR_full])
  /\ kind_of ERROR_full = Some CapacityExceeded.
Proof.
  intros V Q P Miss L. split; [|reflexivity].
  apply add_item_full; auto. now apply find_from_absent.
Qed.

Lemma forallb_Forall {A} (f : A -> bool) l :
  forallb f l = true -> Forall (fun x => f x = true) l.
Proof.
  intros H. apply Forall_forall. intros x Hx. rewrite forallb_forall in H.
  apply H. apply (proj1 (list_elem_of_In _ _)). exact Hx.
Qed.

Lemma add_to_full_store_refused_witness :
  length full_store = 500%nat
  /\ add_item (str "kiwi") 4 0.5%float full_store = (false, full_store, [ERROR_full]).
Proof.
  split; [vm_compute; reflexivity|].
  apply (add_to_full_store_refused full_store (str "kiwi") 4 0.5%float).
  - reflexivity.
  - lia.
  - reflexivity.
  - apply (Forall_impl (fun it => negb (same_name (name it) (str "kiwi")) = true)).
    + apply forallb_Forall. vm_compute. reflexivity.
    + intros it H. now apply negb_true_iff.
  - apply Z.leb_le. vm_compute. reflexivity.
Defined.

(** X3: an Add that fails leaves the store as it was and reports exactly
    one error: the name, the quantity, the price or the capacity, checked
    in this order. *)
Theorem add_failure_changes_nothing (g : store) n q p :
  result (add_item n q p g) = false ->
  store_of (add_item n q p g) = g
  /\ output (add_item n q p g) =
       [if negb (valid_name n) then ERROR_invalid_name
        else if q <=? 0 then ERROR_quantity_not_positive
        else if PrimFloat.ltb p 0%float then ERROR_price_negative
        else ERROR_full].
Proof.
  destruct (valid_name n) eqn:V; [|now rewrite add_item_invalid_name].
  destruct (Z.leb_spec q 0) as [Q|Q]; [now rewrite add_item_bad_quantity|].
  destruct (PrimFloat.ltb p 0%float) eqn:P; [now rewrite add_item_bad_price|].
  destruct (Z.leb_spec 0 (find_from 0 g n)) as [F|F].
  - destruct (find_from_found 0 g n ltac:(lia) F) as (k & it & Hf & Hk & Hn).
    rewrite (add_item_restock_at g n q p k it) by (auto; lia). discriminate.
  - assert (find_from 0 g n = -1) as F1 by (destruct (find_from_range 0 g n); lia).
    destruct (Z.leb_spec MAX_ITEMS (Z.of_nat (length g))) as [L|L].
    + now rewrite add_item_full.
    + rewrite add_item_new by auto. discriminate.
Qed.

Lemma add_failure_changes_nothing_witness :
  store_of (add_item (str "A") 3 (-2)%float abcd) = abcd
  /\ output (add_item (str "A") 3 (-2)%float abcd) = [ERROR_price_negative].
Proof.
  apply (add_failure_changes_nothing abcd (str "A") 3 (-2)%float). reflexivity.
Defined.

(** X4: [find_item] changes nothing and prints nothing; it returns -1
    exactly when no item's name matches ignoring case, and otherwise the
    index of the first item whose name matches. *)
Theorem find_item_first_match (g : store) n :
  store_of (find_item n g) = g /\ output (find_item n g) = []
  /\ (result (find_item n g) = -1
      /\ Forall (fun it => same_name (name it) n = false) g
      \/ exists k it,
           result (find_item n g) = Z.of_nat k /\ g !! k = Some it
           /\ same_name (name it) n = true
           /\ Forall (fun it' => same_name (name it') n = false) (take k g)).
Proof.
  split; [reflexivity|]. split; [reflexivity|].
  unfold find_item, result. cbn [fst].
  induction g as [|x g IH].
  - left. split; [reflexivity | constructor].
  - destruct (same_name (name x) n) eqn:E.
    + right. exists 0%nat, x. cbn [find_from]. unfold same_name in E. rewrite E.
      repeat split; [exact E | constructor].
    + destruct IH as [[F Miss]|(k & it & F & Hk & Hn & First)].
      * left. split; [|now constructor].
        apply find_from_absent. now constructor.
      * right. exists (S k), it. split; [|split; [exact Hk|split; [exact Hn|]]].
        -- rewrite (find_from_first 0 (x :: g) n (S k) it Hk Hn); [lia|].
           intros j it' Hj Hit'. destruct j as [|j]; [now inversion Hit'; subst|].
           rewrite Forall_lookup in First. apply (First j it').
           apply lookup_take_Some. split; [exact Hit' | lia].
        -- cbn [take]. now constructor.
Qed.

Lemma in_remove (g : store) k x :
  In x (take k g ++ drop (S k) g) -> In x g.
Proof.
  rewrite in_app_iff. intros [H|H].
  - rewrite <- (take_drop k g). apply in_app_iff. now left.
  - rewrite <- (take_drop (S k) g). apply in_app_iff. now right.
Qed.

(** X5: in every store state, after Remove(name) an item is in the store
    exactly when it was there before and its name does not match; a
    successful Remove makes the store one item shorter and the name is no
    longer found. *)
Theorem remove_deletes_the_match (g : store) n :
  reachable g ->
  (forall it, In it (store_of (remove_item n g))
              <-> In it g /\ same_name (name it) n = false)
  /\ find_from 0 (store_of (remove_item n g)) n = -1
  /\ (result (remove_item n g) = true ->
      S (length (store_of (remove_item n g))) = length g).
Proof.
  intros R. destruct (reachable_ok g R) as (U & _ & _).
  destruct (Z.leb_spec 0 (find_from 0 g n)) as [F|F].
  - destruct (find_from_found 0 g n ltac:(lia) F) as (k & x & Hf & Hk & Hn).
    rewrite (remove_item_at g n k x) by (auto; lia). unfold store_of, result. cbn [fst snd].
    assert (k < length g)%nat as Lk by (eapply lookup_lt_Some; eauto).
    assert (forall it, In it (take k g ++ drop (S k) g)
                       <-> In it g /\ same_name (name it) n = false) as Iff.
    { intros it. split.
      - intros H. split; [now apply in_remove in H|].
        destruct (same_name (name it) n) eqn:E; [|reflexivity].
        apply (proj2 (list_elem_of_In _ _)), list_elem_of_lookup in H as [j Hj].
        rewrite lookup_remove in Hj.
        assert (same_name (name it) (name x) = true) as S1
          by (apply (same_name_trans _ n); [exact E | now rewrite same_name_sym]).
        destruct (decide (j < k)%nat).
        + pose proof (U j k it x Hj Hk S1). lia.
        + pose proof (U (S j) k it x Hj Hk S1). lia.
      - intros [H E].
        apply (proj2 (list_elem_of_In _ _)), list_elem_of_lookup in H as [j Hj].
        apply (proj1 (list_elem_of_In _ _)), list_elem_of_lookup.
        destruct (lt_eq_lt_dec j k) as [[Lt|Eq]|Gt].
        + exists j. rewrite lookup_remove. now destruct (decide (j < k)%nat); [|lia].
        + subst j. rewrite Hk in Hj. inversion Hj; subst. rewrite Hn in E. discriminate.
        + exists (j - 1)%nat. rewrite lookup_remove.
          destruct (decide (j - 1 < k)%nat); [lia|].
          now replace (S (j - 1)) with j by lia. }
    split; [exact Iff|]. split.
    + apply find_from_absent, Forall_forall. intros it Hit.
      apply (proj1 (list_elem_of_In _ _)), Iff in Hit. tauto.
    + intros _. rewrite length_app, length_take, length_drop. lia.
  - assert (find_from 0 g n = -1) as F1 by (destruct (find_from_range 0 g n); lia).
    rewrite (remove_item_missing g n F1). unfold store_of, result. cbn [fst snd].
    pose proof (find_from_missing 0 g n ltac:(lia) F) as Miss.
    split; [|split; [exact F1 | discriminate]].
    intros it. split; [|tauto]. intros H. split; [exact H|].
    rewrite Forall_forall in Miss. apply Miss. now apply list_elem_of_In.
Qed.

Lemma remove_deletes_the_match_witness :
  (forall it, In it (store_of (remove_item (str "c") abcd))
              <-> In it abcd /\ same_name (name it) (str "c") = false)
  /\ find_from 0 (store_of (remove_item (str "c") abcd)) (str "c") = -1
  /\ (result (remove_item (str "c") abcd) = true ->
      S (length (store_of (remove_item (str "c") abcd))) = length abcd).
Proof. apply (remove_deletes_the_match abcd (str "c")). exact abcd_reachable. Defined.

(** X6: in every store state, SetQuantity(name, q) with q >= 0 on a name
    that matches an item succeeds and replaces that item's quantity by q
    (it does not add to it, and no upper bound is checked); its name, its
    price, its place and all other items stay as they were.  With q < 0 it
    fails with InvalidQuantity whether or not the name exists, and with a
    name nothing matches it fails with NotFound; the store is unchanged
    in both cases. *)
Theorem update_quantity_sets_stock :
  (forall (g : store) n q i it,
      reachable g -> g !! i = Some it -> same_name (name it) n = true -> 0 <= q ->
      update_quantity n q g =
        (true, <[i := mkItem (name it) q (price it)]> g, [OK_quantity n q]))
  /\ (forall (g : store) n q,
      q < 0 ->
      update_quantity n q g = (false, g, [ERROR_quantity_negative])
      /\ kind_of ERROR_quantity_negative = Some InvalidQuantity)
  /\ (forall (g : store) n q,
      0 <= q -> Forall (fun it => same_name (name it) n = false) g ->
      update_quantity n q g = (false, g, [ERROR_item_not_found n])
      /\ kind_of (ERROR_item_not_found n) = Some NotFound).
Proof.
  split; [|split].
  - intros g n q i it R K N Q.
    destruct (matching_item_found g n i it R K N) as [F _].
    now apply update_quantity_at.
  - intros g n q Q. split; [now apply update_quantity_negative | reflexivity].
  - intros g n q Q Miss. split; [|reflexivity].
    apply update_quantity_missing; [exact Q | now apply find_from_absent].
Qed.

Lemma update_quantity_sets_stock_witness :
  update_quantity (str "d") 2000000 abcd =
    (true, [mkItem (str "A") 1 1%float; mkItem (str "B") 2 1%float;
            mkItem (str "C") 3 1%float; mkItem (str "D") 2000000 1%float],
     [OK_quantity (str "d") 2000000])
  /\ update_quantity (str "d") (-1) abcd = (false, abcd, [ERROR_quantity_negative])
  /\ update_quantity (str "e") 5 abcd = (false, abcd, [ERROR_item_not_found (str "e")]).
Proof.
  split; [|split].
  - apply (proj1 update_quantity_sets_stock abcd (str "d") 2000000 3%nat
             (mkItem (str "D") 4 1%float)).
    + exact abcd_reachable.
    + reflexivity.
    + reflexivity.
    + lia.
  - apply (proj1 (proj2 update_quantity_sets_stock) abcd (str "d") (-1)). lia.
  - apply (proj2 (proj2 update_quantity_sets_stock) abcd (str "e") 5); [lia|].
    repeat constructor.
Defined.

(** X7: of two SetQuantity calls on the same name, with quantities that
    are not negative, only the second one shows in the store. *)
Theorem update_quantity_last_wins (g : store) n q1 q2 :
  0 <= q1 -> 0 <= q2 ->
  store_of ((update_quantity n q1 ;; update_quantity n q2) g)
    = store_of (update_quantity n q2 g).
Proof.
  intros Q1 Q2. unfold bind.
  destruct (Z.leb_spec 0 (find_from 0 g n)) as [F|F].
  - destruct (find_from_found 0 g n ltac:(lia) F) as (k & it & Hf & Hk & Hn).
    assert (k < length g)%nat as Lk by (eapply lookup_lt_Some; eauto).
    assert (forall j it', (j < k)%nat -> g !! j = Some it' ->
                          same_name (name it') n = false) as First.
    { intros j it' Hj Hit'. destruct (same_name (name it') n) eqn:E; [|reflexivity].
      pose proof (find_from_first 0 g n j it' Hit' E) as C.
      assert (find_from 0 g n <= 0 + Z.of_nat j); [|lia].
      clear - Hit' E. revert j Hit'. generalize 0 as i.
      induction g as [|x g IH]; intros i j Hj; [discriminate|]. simpl.
      destruct (strcasecmp (name x) n =? 0) eqn:Ex; [lia|].
      destruct j as [|j]; [inversion Hj; subst; unfold same_name in E; congruence|].
      specialize (IH (i + 1) j Hj). lia. }
    rewrite (update_quantity_at g n q1 k it Q1 ltac:(lia) Hk).
    rewrite (update_quantity_at g n q2 k it Q2 ltac:(lia) Hk).
    rewrite (update_quantity_at _ n q2 k (mkItem (name it) q1 (price it)) Q2).
    + unfold store_of. cbn [fst snd name price]. apply list_insert_insert_eq.
    + rewrite (find_from_first 0 _ n k (mkItem (name it) q1 (price it))); [lia | | |].
      * now apply list_lookup_insert_eq.
      * exact Hn.
      * intros j it' Hj Hit'. rewrite list_lookup_insert_ne in Hit' by lia.
        now apply (First j it').
    + now apply list_lookup_insert_eq.
  - assert (find_from 0 g n = -1) as F1 by (destruct (find_from_range 0 g n); lia).
    rewrite (update_quantity_missing g n q1 Q1 F1).
    now rewrite (update_quantity_missing g n q2 Q2 F1).
Qed.

Lemma update_quantity_last_wins_witness :
  store_of ((update_quantity (str "b") 9 ;; update_quantity (str "b") 5) abcd)
    = [mkItem (str "A") 1 1%float; mkItem (str "B") 5 1%float;
       mkItem (str "C") 3 1%float; mkItem (str "D") 4 1%float].
Proof. apply (update_quantity_last_wins abcd (str "b") 9 5); lia. Defined.

(** X8: a valid Add of a name no item matches, on a store below
    capacity, followed by Remove of that name gives back the store as it
    was. *)
Theorem add_then_remove_restores (g : store) n q p :
  valid_name n = true -> 0 < q -> PrimFloat.ltb p 0%float = false ->
  Forall (fun it => same_name (name it) n = false) g ->
  Z.of_nat (length g) < MAX_ITEMS ->
  (add_item n q p ;; remove_item n) g = (true, g, [OK_added n q p; OK_removed n]).
Proof.
  intros V Q P Miss L. unfold bind.
  rewrite (add_item_new g n q p V Q P (find_from_absent 0 g n Miss) L).
  rewrite (strncpy_valid n V).
  rewrite (remove_item_at _ n (length g) (mkItem (c_str n) q p)).
  - rewrite take_app_length. rewrite drop_ge by (rewrite length_app; simpl; lia).
    now rewrite app_nil_r.
  - rewrite (find_from_first 0 _ n (length g) (mkItem (c_str n) q p)); [lia | | |].
    + rewrite lookup_app_r by lia. now rewrite Nat.sub_diag.
    + apply same_name_c_str.
    + intros j it' Hj Hit'. rewrite lookup_app_l in Hit' by lia.
      apply (proj1 (Forall_lookup _ _) Miss j it' Hit').
  - rewrite lookup_app_r by lia. now rewrite Nat.sub_diag.
Qed.

Lemma add_then_remove_restores_witness :
  (add_item (str "kiwi") 4 0.5%float ;; remove_item (str "kiwi")) abcd
    = (true, abcd, [OK_added (str "kiwi") 4 0.5%float; OK_removed (str "kiwi")]).
Proof.
  apply (add_then_remove_restores abcd (str "kiwi") 4 0.5%float).
  - reflexivity.
  - lia.
  - reflexivity.
  - repeat constructor.
  - vm_compute. reflexivity.
Defined.

(** X9: [calculate_total] changes nothing and prints nothing; after a
    valid Add of a new item the total is the total before plus
    (double)quantity * price, added last, in floating point. *)
Theorem total_after_add (g : store) n q p :
  valid_name n = true -> 0 < q -> PrimFloat.ltb p 0%float = false ->
  Forall (fun it => same_name (name it) n = false) g ->
  Z.of_nat (length g) < MAX_ITEMS ->
  result ((add_item n q p ;; calculate_total) g)
    = PrimFloat.add (result (calculate_total g)) (PrimFloat.mul (double_of_Z q) p)
  /\ store_of (calculate_total g) = g /\ output (calculate_total g) = [].
Proof.
  intros V Q P Miss L. split; [|split; reflexivity]. unfold bind.
  rewrite (add_item_new g n q p V Q P (find_from_absent 0 g n Miss) L).
  unfold calculate_total, result. cbn [fst]. now rewrite fold_left_app.
Qed.

Lemma total_after_add_witness :
  result ((add_item (str "kiwi") 4 0.5%float ;; calculate_total) abcd) = 12%float
  /\ store_of (calculate_total abcd) = abcd /\ output (calculate_total abcd) = [].
Proof.
  apply (total_after_add abcd (str "kiwi") 4 0.5%float).
  - reflexivity.
  - lia.
  - reflexivity.
  - repeat constructor.
  - vm_compute. reflexivity.
Defined.

(** * Further properties of the persistence codec *)

Lemma load_line_keeps_ok cap lineno buf (g : store) :
  Forall loaded_ok g -> Forall loaded_ok (store_of (load_line cap lineno buf g)).
Proof.
  intros Ok. remember (load_line cap lineno buf g) as r eqn:Hr.
  unfold load_line in Hr.
  destruct (trim (c_str buf)) as [|c line]; [now subst r|].
  destruct (is_char 35 c); [now subst r|].
  unfold bind, g_count, find_item, print, ret, push in Hr.
  destruct (Z.leb_spec cap (Z.of_nat (length g))) as [C|C]; [now subst r|].
  destruct (strtok (strncpy (LINE_BUF - 1) (c :: line))) as [t1 s1].
  destruct (strtok s1) as [t2 s2]. destruct (strtok s2) as [t3 s3].
  destruct t1 as [t1|]; [|now subst r]. destruct t2 as [t2|]; [|now subst r].
  destruct t3 as [t3|]; [|now subst r].
  rewrite valid_name_checks in Hr.
  destruct (valid_name (trim t1)) eqn:V; simpl in Hr; [|now subst r].
  destruct (strtol (trim t2)) as [lqty ep].
  destruct (strlen ep =? 0); simpl in Hr; [|now subst r].
  destruct (Z.ltb_spec lqty 0); simpl in Hr; [now subst r|].
  destruct (Z.ltb_spec 1000000 lqty); simpl in Hr; [now subst r|].
  destruct (strtod (trim t3)) as [p ep'].
  destruct (strlen ep' =? 0); simpl in Hr; [|now subst r].
  destruct (PrimFloat.ltb p 0) eqn:P0; simpl in Hr; [now subst r|].
  destruct (PrimFloat.ltb 1000000000 p) eqn:P9; simpl in Hr; [now subst r|].
  destruct (Z.leb_spec 0 (find_from 0 g (trim t1))); simpl in Hr; [now subst r|].
  subst r. unfold store_of. cbn [fst snd]. apply Forall_app. split; [exact Ok|].
  constructor; [|constructor]. unfold loaded_ok. cbn [name quantity price].
  rewrite (strncpy_valid _ V), valid_name_c_str. repeat split; auto.
Qed.

Lemma load_loop_keeps_ok fp lineno (s : store) :
  Forall loaded_ok s -> Forall loaded_ok (store_of (load_loop MAX_ITEMS fp lineno s)).
Proof.
  revert fp lineno s.
  apply (load_loop_induction MAX_ITEMS
           (fun fp lineno s r => Forall loaded_ok s -> Forall loaded_ok (store_of r))).
  - intros lineno s Ok. exact Ok.
  - intros c fp lineno s g1 o1 E Ok.
    pose proof (load_line_keeps_ok MAX_ITEMS (lineno + 1) (fgets_buf (c :: fp)) s Ok) as H.
    now rewrite E in H.
  - intros c fp lineno s g1 o1 r g2 o2 E E2 IH Ok. apply IH.
    pose proof (load_line_keeps_ok MAX_ITEMS (lineno + 1) (fgets_buf (c :: fp)) s Ok) as H.
    now rewrite E in H.
Qed.

(** X10: every item Load stores has a name of 1 to 63 characters, a
    quantity in [0, 1_000_000] and a price that is neither below 0 nor
    above 1e9, whatever the file holds. *)
Theorem loaded_items_checked (content : list ascii) (g : store) :
  Forall loaded_ok (store_of (load_inventory (File content) g)).
Proof.
  rewrite load_inventory_store. apply load_loop_keeps_ok. constructor.
Qed.

(** X11: Load of a file that exists succeeds whatever the file holds:
    bad lines never make it fail.  What it stores does not depend on the
    inventory held before; its last message reports the number of items
    stored, at most 500.  When the file cannot be opened for another
    reason than its absence, Load fails with ReadError and the store is
    unchanged. *)
Theorem load_tolerates_any_file :
  (forall (content : list ascii) (g : store),
      result (load_inventory (File content) g) = true
      /\ store_of (load_inventory (File content) g)
         = store_of (load_inventory (File content) [])
      /\ (exists w, output (load_inventory (File content) g)
                    = w ++ [INFO_loaded (Z.of_nat (length (store_of
                                (load_inventory (File content) g))))])
      /\ Z.of_nat (length (store_of (load_inventory (File content) g))) <= MAX_ITEMS)
  /\ (forall g : store,
      load_inventory NoAccess g = (false, g, [ERROR_cannot_open])
      /\ kind_of ERROR_cannot_open = Some ReadError).
Proof.
  split; [|intros g; split; reflexivity].
  intros content g.
  pose proof (load_inventory_ok (File content) [] store_ok_empty) as (_ & _ & L).
  rewrite load_inventory_store in L.
  split; [|split; [|split]].
  - unfold load_inventory, bind, clear, g_count, print, ret, result.
    now destruct (load_loop MAX_ITEMS content 0 []) as [[r g1] o1].
  - now rewrite !load_inventory_store.
  - unfold load_inventory, bind, clear, g_count, print, ret, output, store_of.
    destruct (load_loop MAX_ITEMS content 0 []) as [[r g1] o1]. cbn [fst snd].
    exists o1. reflexivity.
  - now rewrite load_inventory_store.
Qed.

Lemma load_line_verdict lineno buf (g : store) f1 f2 f3 more :
  Z.of_nat (length buf) < LINE_BUF ->
  is_record_line (trim (c_str buf)) = true ->
  Z.of_nat (length g) < MAX_ITEMS ->
  nonempty_fields (trim (c_str buf)) = f1 :: f2 :: f3 :: more ->
  load_line MAX_ITEMS lineno buf g =
    if negb (valid_name (trim f1)) then (Continue, g, [WARN_name_length lineno])
    else match parse_int (trim f2) with
         | None => (Continue, g, [WARN_quantity lineno (trim f2)])
         | Some q =>
             match parse_double (trim f3) with
             | None => (Continue, g, [WARN_price lineno (trim f3)])
             | Some p =>
                 if 0 <=? find_from 0 g (trim f1)
                 then (Continue, g, [WARN_duplicate lineno (trim f1)])
                 else (Continue, g ++ [mkItem (trim f1) q p], [])
             end
         end.
Proof.
  intros L R C N.
  pose proof (trim_nul_free _ (c_str_nul_free buf)) as NF.
  unfold load_line, parse_int, parse_double.
  pose proof (tmp_is_line _ L) as T.
  pose proof (strtok3_spec (trim (c_str buf))) as K.
  destruct (trim (c_str buf)) as [|c line] eqn:E; [discriminate R|].
  simpl in R. rewrite (proj1 (negb_true_iff _) R).
  unfold bind at 1, g_count at 1. cbv beta iota.
  apply Z.leb_gt in C. rewrite C. rewrite T.
  destruct (strtok (c :: line)) as [t1 s1]. destruct (strtok s1) as [t2 s2].
  destruct (strtok s2) as [t3 s3]. rewrite N in K. destruct K as [-> [-> ->]].
  rewrite valid_name_checks.
  destruct (valid_name (trim f1)) eqn:V; [|reflexivity]. cbn [negb].
  destruct (strtol (trim f2)) as [q ep].
  destruct (negb (strlen ep =? 0) || (q <? 0) || (1000000 <? q)); [reflexivity|].
  destruct (strtod (trim f3)) as [p ep'].
  destruct (negb (strlen ep' =? 0) || PrimFloat.ltb p 0 || PrimFloat.ltb 1000000000 p);
    [reflexivity|].
  unfold bind, find_item, push, print, ret.
  destruct (0 <=? find_from 0 g (trim f1)); [reflexivity|].
  rewrite (strncpy_valid _ V).
  rewrite (c_str_id (trim f1)); [reflexivity|].
  apply trim_nul_free, (nonempty_fields_nul_free (c :: line)); [exact NF | rewrite N; now left].
Qed.

(** X12: what Load does, while the store is below capacity, with a
    non-blank, non-comment line that fits the line buffer (at most 254
    characters before its line break) and has three or more non-empty
    fields, in the order of its checks: a first field whose trimmed
    length is not 1 to 63 gives the name-length warning; else a second
    field that [parse_int] would refuse gives the quantity warning; else
    a third field that [parse_double] would refuse gives the price
    warning; else a name that matches a stored item gives the duplicate
    warning (the stored item is kept, nothing is merged); else the record
    is appended.  Only the last case changes the store, and loading goes
    on with the next line in all of them. *)
Theorem record_line_verdict fp line rest lineno (g : store) f1 f2 f3 more :
  first_line fp line rest ->
  is_record_line (trim (c_str line)) = true ->
  Z.of_nat (length g) < MAX_ITEMS ->
  nonempty_fields (trim (c_str line)) = f1 :: f2 :: f3 :: more ->
  load_loop MAX_ITEMS fp lineno g =
    ((if negb (valid_name (trim f1)) then print (WARN_name_length (lineno + 1))
      else match parse_int (trim f2) with
           | None => print (WARN_quantity (lineno + 1) (trim f2))
           | Some q =>
               match parse_double (trim f3) with
               | None => print (WARN_price (lineno + 1) (trim f3))
               | Some p =>
                   if 0 <=? find_from 0 g (trim f1)
                   then print (WARN_duplicate (lineno + 1) (trim f1))
                   else push (mkItem (trim f1) q p)
               end
           end) ;;
     load_loop MAX_ITEMS rest (lineno + 1)) g.
Proof.
  intros FL R C N.
  destruct (first_line_fgets fp line rest FL) as (Ne & Hr & T).
  rewrite <- T in R, N.
  pose proof (load_line_verdict (lineno + 1) (fgets_buf fp) g f1 f2 f3 more
                (fgets_buf_length fp) R C N) as V.
  destruct (negb (valid_name (trim f1)));
    [|destruct (parse_int (trim f2)) as [q|];
      [destruct (parse_double (trim f3)) as [p|];
       [destruct (0 <=? find_from 0 g (trim f1))|]|]];
    rewrite (load_loop_next MAX_ITEMS fp lineno g _ _ Ne V); rewrite Hr;
    unfold bind, print, push; reflexivity.
Qed.

Lemma record_line_verdict_witness :
  load_loop MAX_ITEMS (str " b , 5 , 2.5 " ++ [newline] ++ str "x") 6 abcd =
    ((if negb (valid_name (trim (str "b "))) then print (WARN_name_length (6 + 1))
      else match parse_int (trim (str " 5 ")) with
           | None => print (WARN_quantity (6 + 1) (trim (str " 5 ")))
           | Some q =>
               match parse_double (trim (str " 2.5")) with
               | None => print (WARN_price (6 + 1) (trim (str " 2.5")))
               | Some p =>
                   if 0 <=? find_from 0 abcd (trim (str "b "))
                   then print (WARN_duplicate (6 + 1) (trim (str "b ")))
                   else push (mkItem (trim (str "b ")) q p)
               end
           end) ;;
     load_loop MAX_ITEMS (str "x") (6 + 1)) abcd.
Proof.
  apply (record_line_verdict (str " b , 5 , 2.5 " ++ [newline] ++ str "x")
           (str " b , 5 , 2.5 ") (str "x") 6 abcd (str "b ") (str " 5 ") (str " 2.5") []).
  - split; [vm_compute; reflexivity|]. split; [vm_compute; reflexivity|]. left. reflexivity.
  - vm_compute. reflexivity.
  - vm_compute. reflexivity.
  - vm_compute. reflexivity.
Defined.

(** X13: a line that fits the line buffer (at most 254 characters before
    its line break) and is blank, or whose first non-blank character is
    '#', is passed over without a message and without ending the loop,
    also when the store is full. *)
Theorem comment_lines_skipped fp line rest lineno (g : store) :
  first_line fp line rest ->
  is_record_line (trim (c_str line)) = false ->
  load_loop MAX_ITEMS fp lineno g = load_loop MAX_ITEMS rest (lineno + 1) g.
Proof.
  intros FL R. destruct (first_line_fgets fp line rest FL) as (Ne & Hr & T).
  rewrite <- T in R.
  rewrite (load_loop_next MAX_ITEMS fp lineno g g [] Ne).
  - rewrite Hr. now destruct (load_loop MAX_ITEMS rest (lineno + 1) g) as [[r g2] o2].
  - now apply load_line_not_record.
Qed.

Lemma comment_lines_skipped_witness :
  load_loop MAX_ITEMS (str "  # note" ++ [newline] ++ str "fig,2,0.5" ++ [newline]) 0 full_store
    = load_loop MAX_ITEMS (str "fig,2,0.5" ++ [newline]) (0 + 1) full_store.
Proof.
  apply (comment_lines_skipped (str "  # note" ++ [newline] ++ str "fig,2,0.5" ++ [newline])
           (str "  # note") (str "fig,2,0.5" ++ [newline]) 0 full_store).
  - split; [vm_compute; reflexivity|]. split; [vm_compute; reflexivity|]. left. reflexivity.
  - vm_compute. reflexivity.
Defined.

(** X14: Save to a destination that is opened and written without error.
    The program does not look at the results of its writes, and the model
    has no failing write: the statement is about the runs where every
    write succeeds.  No price is a NaN (whose printed sign is not
    modelled).  Then Save succeeds, leaves the store as it is and replaces
    whatever the destination held by the header line followed by one line
    per item, in store order.  When the destination cannot be opened, Save
    fails with WriteError, and destination and store stay as they were. *)
Theorem save_writes_every_item :
  (forall (g : store) f,
      f <> NoAccess ->
      Forall (fun it => PrimFloat.is_nan (price it) = false) g ->
      save_inventory f g =
        ((true, File (header ++ concat (map fmt_item g))), g,
         [INFO_saved (Z.of_nat (length g))]))
  /\ (forall g : store,
      save_inventory NoAccess g = ((false, NoAccess), g, [ERROR_cannot_write])
      /\ kind_of ERROR_cannot_write = Some WriteError).
Proof.
  split; [|intros g; split; reflexivity].
  intros g f A _. now apply save_inventory_writes.
Qed.

Lemma save_writes_every_item_witness :
  save_inventory (File (str "old")) [mkItem (str "fig") 2 0.5%float] =
    ((true, File (header ++ concat (map fmt_item [mkItem (str "fig") 2 0.5%float]))),
     [mkItem (str "fig") 2 0.5%float], [INFO_saved (Z.of_nat 1)]).
Proof.
  apply (proj1 save_writes_every_item [mkItem (str "fig") 2 0.5%float] (File (str "old"))).
  - discriminate.
  - repeat constructor.
Defined.

(** ** Text helpers *)

Lemma skip_space_spec s :
  exists a, s = a ++ skip_space s /\ forallb isspace a = true.
Proof.
  induction s as [|c s (a & IH & A)]; simpl; [now exists []|].
  destruct (isspace c) eqn:E.
  - exists (c :: a). simpl. rewrite E, A. split; [now f_equal | reflexivity].
  - now exists [].
Qed.

Lemma skip_space_head s c t : skip_space s = c :: t -> isspace c = false.
Proof.
  induction s as [|d s IH]; simpl; [discriminate|].
  destruct (isspace d) eqn:E; [exact IH|]. intros [= <- _]. exact E.
Qed.

Lemma skip_space_id c t : isspace c = false -> skip_space (c :: t) = c :: t.
Proof. intros E. simpl. now rewrite E. Qed.

Lemma drop_trailing_space_spec s :
  exists b, s = drop_trailing_space s ++ b /\ forallb isspace b = true.
Proof.
  induction s as [|c s (b & IH & B)]; simpl; [now exists []|].
  destruct (drop_trailing_space s) as [|d t] eqn:E.
  - simpl in IH. subst b. destruct (isspace c) eqn:Ec.
    + exists (c :: s). simpl. now rewrite Ec, B.
    + now exists s.
  - exists b. simpl. split; [now f_equal | exact B].
Qed.

Lemma drop_trailing_space_last s t c :
  drop_trailing_space s = t ++ [c] -> isspace c = false.
Proof.
  revert t. induction s as [|x s IH]; intros t; simpl.
  - now destruct t.
  - destruct (drop_trailing_space s) as [|d u] eqn:E.
    + destruct (isspace x) eqn:Ex; [now destruct t|].
      destruct t as [|y [|z t]]; simpl; try discriminate. now intros [= <-].
    + destruct t as [|y t]; simpl; [discriminate|].
      intros [= _ H]. now apply (IH t).
Qed.

Lemma drop_trailing_space_head c s d t :
  drop_trailing_space (c :: s) = d :: t -> d = c.
Proof.
  simpl. destruct (drop_trailing_space s); [destruct (isspace c)|]; congruence.
Qed.

Lemma drop_trailing_space_idem s :
  drop_trailing_space (drop_trailing_space s) = drop_trailing_space s.
Proof.
  induction s as [|c s IH]; simpl; [reflexivity|].
  destruct (drop_trailing_space s) as [|d t] eqn:E.
  - destruct (isspace c) eqn:Ec; simpl; [reflexivity | now rewrite Ec].
  - change (drop_trailing_space (c :: d :: t)) with
      (match drop_trailing_space (d :: t) with
       | [] => if isspace c then [] else [c]
       | u => c :: u
       end).
    now rewrite IH.
Qed.

Lemma trim_head s c t : trim s = c :: t -> isspace c = false.
Proof.
  unfold trim. destruct (skip_space s) as [|d u] eqn:E; [discriminate|].
  intros H. apply drop_trailing_space_head in H. subst c.
  now apply (skip_space_head s d u).
Qed.

(** X15: [trim] removes white space only, and all of it at both ends:
    the argument is the result between two runs of white space, the
    result neither starts nor ends with white space, and trimming twice
    is trimming once. *)
Theorem trim_strips_both_ends s :
  (exists a b, s = a ++ trim s ++ b
                /\ forallb isspace a = true /\ forallb isspace b = true)
  /\ (forall c t, trim s = c :: t -> isspace c = false)
  /\ (forall t c, trim s = t ++ [c] -> isspace c = false)
  /\ trim (trim s) = trim s.
Proof.
  split; [|split; [|split]].
  - destruct (skip_space_spec s) as (a & Ea & A).
    destruct (drop_trailing_space_spec (skip_space s)) as (b & Eb & B).
    exists a, b. unfold trim. rewrite <- Eb. now split.
  - apply trim_head.
  - intros t c. unfold trim. apply drop_trailing_space_last.
  - destruct (trim s) as [|c t] eqn:E; [reflexivity|].
    pose proof (trim_head s c t E) as Hc.
    unfold trim at 1. rewrite (skip_space_id c t Hc). rewrite <- E.
    unfold trim. apply drop_trailing_space_idem.
Qed.

Lemma span_spec f s :
  s = fst (span f s) ++ snd (span f s) /\ forallb f (fst (span f s)) = true.
Proof.
  induction s as [|c s [IH1 IH2]]; simpl; [now split|].
  destruct (f c) eqn:E; [|now split].
  destruct (span f s) as [a b]. simpl in *. rewrite E, IH2. split; [now f_equal | reflexivity].
Qed.

Lemma dec_value_nonneg ds : forall acc,
  0 <= acc -> forallb isdigit ds = true -> 0 <= dec_value acc ds.
Proof.
  induction ds as [|c ds IH]; intros acc A D; simpl; [exact A|].
  simpl in D. apply andb_prop in D as [Dc Dds]. apply IH; [|exact Dds].
  unfold isdigit in Dc. apply andb_prop in Dc as [L _]. apply Z.leb_le in L.
  unfold digit_val. lia.
Qed.

Lemma nul_free_strlen s : nul_free s -> strlen s = 0 -> s = [].
Proof.
  intros N. unfold strlen. rewrite (c_str_id s N). now destruct s.
Qed.

Lemma read_sign_spec s :
  exists sg, s = sg ++ snd (read_sign s)
    /\ (sg = [] /\ fst (read_sign s) = false
        \/ sg = str "+" /\ fst (read_sign s) = false
        \/ sg = str "-" /\ fst (read_sign s) = true).
Proof.
  destruct s as [|c s]; simpl; [exists []; now auto|].
  unfold is_char. destruct (code c =? 45) eqn:E1; simpl.
  - exists [c]. split; [reflexivity|]. right. right. split; [|reflexivity].
    apply Z.eqb_eq in E1. f_equal. unfold code in E1.
    rewrite <- (ascii_N_embedding c). now replace (N_of_ascii c) with 45%N by lia.
  - destruct (code c =? 43) eqn:E2; simpl.
    + exists [c]. split; [reflexivity|]. right. left. split; [|reflexivity].
      apply Z.eqb_eq in E2. f_equal. unfold code in E2.
      rewrite <- (ascii_N_embedding c). now replace (N_of_ascii c) with 43%N by lia.
    + exists []. now auto.
Qed.

(** X16: [parse_int] reads back every quantity from 0 to 1_000_000 as
    [%d] prints it. *)
Theorem parse_int_reads_decimal q :
  0 <= q <= 1000000 -> parse_int (fmt_d q) = Some q.
Proof.
  intros B. unfold parse_int, fmt_d.
  destruct (q <? 0) eqn:E; [apply Z.ltb_lt in E; lia|].
  rewrite strtol_dec_chars by (unfold LONG_MAX; lia).
  simpl. rewrite E. destruct (1000000 <? q) eqn:E2; [apply Z.ltb_lt in E2; lia|].
  reflexivity.
Qed.

Lemma parse_int_reads_decimal_witness : parse_int (fmt_d 1000000) = Some 1000000.
Proof. apply (parse_int_reads_decimal 1000000). lia. Defined.

(** X17: what [parse_int] accepts.  The value is within [0, 1_000_000],
    and the text is either empty (read as 0) or white space, an optional
    sign and one or more decimal digits up to its end, the value being
    that of the digits; a minus sign goes through before zeros only. *)
Theorem parse_int_accepted s v :
  nul_free s -> parse_int s = Some v ->
  0 <= v <= 1000000
  /\ (s = [] /\ v = 0
      \/ exists ws sg ds,
           s = ws ++ sg ++ ds /\ forallb isspace ws = true
           /\ (sg = [] \/ sg = str "+" \/ sg = str "-")
           /\ ds <> [] /\ forallb isdigit ds = true /\ v = dec_value 0 ds
           /\ (sg = str "-" -> v = 0)).
Proof.
  intros N. unfold parse_int, strtol.
  destruct (skip_space_spec s) as (ws & Ews & Hws).
  destruct (read_sign_spec (skip_space s)) as (sg & Esg & Hsg).
  destruct (read_sign (skip_space s)) as [neg s1]. cbn [fst snd] in *.
  destruct (span_spec isdigit s1) as [Eds Hds].
  destruct (span isdigit s1) as [ds rest]. cbn [fst snd] in *.
  destruct ds as [|d ds].
  - destruct (strlen s =? 0) eqn:L; [|discriminate]. simpl.
    intros [= <-]. split; [lia|]. left. split; [|reflexivity].
    apply Z.eqb_eq in L. now apply nul_free_strlen.
  - set (dv := dec_value 0 (d :: ds)) in *.
    pose proof (dec_value_nonneg (d :: ds) 0 ltac:(lia) Hds) as P. fold dv in P.
    destruct (strlen rest =? 0) eqn:L; [|discriminate]. cbn [negb orb].
    destruct (_ <? 0) eqn:L1; [discriminate|]. cbn [orb].
    destruct (1000000 <? _) eqn:L2; [discriminate|].
    intros [= <-]. apply Z.ltb_ge in L1, L2. apply Z.eqb_eq in L.
    assert (rest = []) as ->.
    { apply nul_free_strlen; [|exact L].
      rewrite Ews, Esg, Eds in N. unfold nul_free in *. rewrite !Forall_app in N. tauto. }
    rewrite app_nil_r in Eds. subst s1.
    split; [lia|]. right. exists ws, sg, (d :: ds).
    split; [now rewrite <- Esg|]. split; [exact Hws|].
    split; [tauto|]. split; [discriminate|]. split; [exact Hds|].
    unfold LONG_MIN, LONG_MAX in *. split; [destruct neg; lia|].
    intros ->. destruct Hsg as [[E _] | [[E _] | [_ ->]]]; try discriminate E. lia.
Qed.

Lemma parse_int_accepted_witness :
  0 <= 42 <= 1000000
  /\ (str " +42" = [] /\ 42 = 0
      \/ exists ws sg ds,
           str " +42" = ws ++ sg ++ ds /\ forallb isspace ws = true
           /\ (sg = [] \/ sg = str "+" \/ sg = str "-")
           /\ ds <> [] /\ forallb isdigit ds = true /\ 42 = dec_value 0 ds
           /\ (sg = str "-" -> 42 = 0)).
Proof.
  apply (parse_int_accepted (str " +42") 42).
  - repeat constructor.
  - vm_compute. reflexivity.
Defined.

(** X18: [parse_double] reads a price printed with [%.2f] as the binary64
    nearest to the printed decimal, when that number is not below 0 and
    not above 1e9; it rejects it otherwise. *)
Theorem parse_double_reads_price p :
  parse_double (fmt_2f p) =
    if PrimFloat.ltb (round_2dp p) 0 || PrimFloat.ltb 1e9 (round_2dp p)
    then None else Some (round_2dp p).
Proof.
  unfold parse_double. rewrite strtod_fmt_2f. reflexivity.
Qed.

(** * An invariant of the prices *)

Lemma exec_keeps_prices o (g : store) :
  Forall price_ok g -> Forall price_ok (store_of (exec o g)).
Proof.
  intros Inv. destruct o as [n q p|n|n q|f]; simpl.
  - destruct (valid_name n) eqn:V; [|now rewrite add_item_invalid_name].
    destruct (Z.leb_spec q 0) as [Q|Q]; [now rewrite add_item_bad_quantity|].
    destruct (PrimFloat.ltb p 0%float) eqn:P; [now rewrite add_item_bad_price|].
    destruct (Z.leb_spec 0 (find_from 0 g n)) as [F|F].
    + destruct (find_from_found 0 g n ltac:(lia) F) as (k & it & Hf & Hk & Hn).
      rewrite (add_item_restock_at g n q p k it) by (auto; lia).
      unfold store_of. cbn [fst snd]. apply Forall_insert; [exact Inv | exact P].
    + assert (find_from 0 g n = -1) as F1 by (destruct (find_from_range 0 g n); lia).
      destruct (Z.leb_spec MAX_ITEMS (Z.of_nat (length g))) as [L|L].
      * now rewrite add_item_full.
      * rewrite add_item_new by auto. unfold store_of. cbn [fst snd].
        apply Forall_app. split; [exact Inv|]. constructor; [exact P | constructor].
  - destruct (Z.leb_spec 0 (find_from 0 g n)) as [F|F].
    + destruct (find_from_found 0 g n ltac:(lia) F) as (k & it & Hf & Hk & Hn).
      rewrite (remove_item_at g n k it) by (auto; lia).
      unfold store_of. cbn [fst snd]. apply Forall_app.
      split; [now apply Forall_take | now apply Forall_drop].
    + assert (find_from 0 g n = -1) as F1 by (destruct (find_from_range 0 g n); lia).
      now rewrite remove_item_missing.
  - destruct (Z.ltb_spec q 0) as [Q|Q]; [now rewrite update_quantity_negative|].
    destruct (Z.leb_spec 0 (find_from 0 g n)) as [F|F].
    + destruct (find_from_found 0 g n ltac:(lia) F) as (k & it & Hf & Hk & Hn).
      rewrite (update_quantity_at g n q k it) by (auto; lia).
      unfold store_of. cbn [fst snd]. apply Forall_insert; [exact Inv|].
      exact (proj1 (Forall_lookup _ _) Inv k it Hk).
    + assert (find_from 0 g n = -1) as F1 by (destruct (find_from_range 0 g n); lia).
      now rewrite update_quantity_missing.
  - rewrite load_inventory_store. destruct f as [|content|]; try exact Inv.
    apply (Forall_impl loaded_ok).
    + apply load_loop_keeps_ok. constructor.
    + intros it (_ & _ & P & _). exact P.
Qed.

(** X19: no sequence of Add, Remove, Update Quantity and Load ever leaves
    an item with a price below zero in the store (restocking replaces the
    price, but only by one that passed the same check). *)
Theorem prices_never_negative (g : store) :
  reachable g -> Forall price_ok g.
Proof.
  induction 1 as [|o g _ IH]; [constructor | now apply exec_keeps_prices].
Qed.

Lemma prices_never_negative_witness : Forall price_ok abcd.
Proof. apply (prices_never_negative abcd). exact abcd_reachable. Defined.
